(** * Tele-consultation call session: a shallow embedding

    The two consultation pages,
    [src/app/(app)/tele-consultation/page.tsx] (patient) and
    [src/app/(app)/tele-consultation/doctor/page.tsx] (doctor), hold the same
    call-session logic: a React component whose [useState] cells, [useRef]
    cells and PeerJS / browser objects are mutated by event handlers.  The
    embedding keeps that shape: one record for the component's cells and the
    objects it shares with the browser, a small state monad for the handler
    bodies, and an event type for what the event loop delivers.

    Conventions.
    - Execution is single-threaded: a handler runs to its end on the cells
      of the latest render, and the state updates it queues are all applied
      before the next event is handled.  The handlers registered once, in
      the effects, only call setters and read ref cells, so they never see
      stale cells.
    - Streams, tracks and connections are objects with identity: a stream is
      a reference into a store, a connection an index into the list of
      connections PeerJS has built.
    - [console.log], [console.error] and the [play()] calls on the video
      elements have no effect on the cells and are left out.  The clean-up
      functions of the two effects (unmount) are outside the events
      modelled. *)

From Stdlib Require Import String Ascii NArith Bool Lia.
From stdpp Require Import base option list gmap strings.

Local Open Scope string_scope.
Local Open Scope list_scope.

(** ** The JavaScript runtime pieces the identity generators use *)

Module JS.

(** [String.prototype.toUpperCase] on an ASCII character. *)
Definition toUpperCase_char (c : ascii) : ascii :=
  let n := nat_of_ascii c in
  if (97 <=? n)%nat && (n <=? 122)%nat then ascii_of_nat (n - 32) else c.

Fixpoint toUpperCase (s : string) : string :=
  match s with
  | EmptyString => EmptyString
  | String c s' => String (toUpperCase_char c) (toUpperCase s')
  end.

(** [s.substr(start, len)] for non-negative arguments: at most [len]
    characters from index [start], clamped at the end of [s]. *)
Definition substr (s : string) (start len : nat) : string :=
  String.substring start len s.

(** The digit characters of [Number.prototype.toString(36)]. *)
Definition digit36 (d : N) : ascii :=
  if (d <? 10)%N then ascii_of_N (48 + d) else ascii_of_N (87 + d).

(** Fractional digits of [r / d] in base 36, by long division, until the
    remainder is zero. *)
Fixpoint frac36 (fuel : nat) (r d : N) : string :=
  match fuel with
  | O => EmptyString
  | S fuel' =>
      if (r =? 0)%N then EmptyString
      else String (digit36 (r * 36 / d)) (frac36 fuel' (r * 36 mod d) d)
  end.

(** [(m / 2^e).toString(36)] for a double [m / 2^e] in [[0, 1)], written
    with every digit of its (always finite) base-36 expansion.  A
    dyadic [m / 2^e] needs at most [e] digits.  Engines cut the expansion
    once the remainder is below half a unit in the last place, so this is
    what they print whenever the expansion ends before that cut, in
    particular for [0] and for [1/2]. *)
Definition toString36 (m e : N) : string :=
  if (m =? 0)%N then "0" else "0." ++ frac36 (N.to_nat e) m (2 ^ e).

(** Characters of a radix-36 rendering and of its upper-cased form. *)
Definition is_lower36 (c : ascii) : bool :=
  let n := nat_of_ascii c in
  ((48 <=? n)%nat && (n <=? 57)%nat) || ((97 <=? n)%nat && (n <=? 122)%nat).

Definition is_upper36 (c : ascii) : bool :=
  let n := nat_of_ascii c in
  ((48 <=? n)%nat && (n <=? 57)%nat) || ((65 <=? n)%nat && (n <=? 90)%nat).

Fixpoint string_forallb (p : ascii -> bool) (s : string) : bool :=
  match s with
  | EmptyString => true
  | String c s' => p c && string_forallb p s'
  end.

(** The shape of [x.toString(36)] for a double [0 <= x < 1]: either ["0"],
    or ["0."] followed by at least one base-36 digit.  How many digits an
    engine prints is left open. *)
Definition is_rendering36 (r : string) : bool :=
  match r with
  | String a EmptyString => Ascii.eqb a "0"
  | String a (String b (String c ds)) =>
      Ascii.eqb a "0" && Ascii.eqb b "." && is_lower36 c
      && string_forallb is_lower36 ds
  | _ => false
  end.

End JS.

(** ** Participant identities *)

(** [generatePatientId], page.tsx line 31, and [generateDoctorId],
    doctor/page.tsx line 11.  The argument [rnd] stands for
    [Math.random().toString(36)]. *)
Definition generatePatientId (rnd : string) : string :=
  "PT-" ++ JS.toUpperCase (JS.substr rnd 2 8).

Definition generateDoctorId (rnd : string) : string :=
  "DR-" ++ JS.toUpperCase (JS.substr rnd 2 8).

(** ** Browser and PeerJS objects *)

Inductive TrackKind := audio | video.

Inductive ReadyState := live | ended.

(** A [MediaStreamTrack]: the fields the pages read or write. *)
Record MediaStreamTrack := mkTrack {
  kind : TrackKind;
  enabled : bool;
  readyState : ReadyState
}.

(** Objects are referred to by reference.  A [MediaStream] is a reference
    into the store [streams] below, which holds its tracks; every holder of
    the reference (the ref cell, the preview element, a call) sees the same
    tracks. *)
Abbreviation StreamRef := nat.
Abbreviation CallRef := nat.

(** An [HTMLVideoElement]: only [srcObject] is used. *)
Record HTMLVideoElement := mkVideo { srcObject : option StreamRef }.

(** The [Peer] object built by [new Peer(id, options)]. *)
Record Peer := mkPeer { requestedId : string }.

Inductive Variant := v_default | v_destructive.

Record Toast := mkToast {
  title : string;
  description : string;
  variant : Variant
}.

#[global] Instance Variant_eq_dec : EqDecision Variant.
Proof. solve_decision. Defined.

#[global] Instance Toast_eq_dec : EqDecision Toast.
Proof. solve_decision. Defined.

(** The events of a [MediaConnection] and the closures the pages register
    for them: three in the [on('call')] handler of the peer, three in
    [makeCall]. *)
Inductive CallEventName := ev_stream | ev_close | ev_error.

Inductive Closure :=
| answered_stream | answered_close | answered_error
| placed_stream | placed_close | placed_error.

(** A PeerJS [MediaConnection] (the spec's CallHandle): the remote identity
    [call.peer], the local stream handed over by [peer.call] or
    [call.answer], how often [close()] was called on it, and its listeners
    in registration order. *)
Record MediaConnection := mkConn {
  conn_peer : string;
  conn_localStream : option StreamRef;
  conn_closeCalls : nat;
  conn_listeners : list (CallEventName * Closure)
}.

Inductive Role := Patient | Doctor.

(** ** The component's cells *)

(** The [useState] cells, the [useRef] cells, and the objects that live
    outside React: the stream store, the connections PeerJS has created, and
    the toasts shown so far (oldest first). *)
Record Page := mkPage {
  hasCameraPermission : option bool;
  isVideoMuted : bool;
  isAudioMuted : bool;
  peer : option Peer;
  peerId : string;
  remotePeerIdInput : string;
  currentCall : option CallRef;
  isConnected : bool;
  isCallActive : bool;
  hasRemoteStream : bool;
  localVideoRef : option HTMLVideoElement;
  remoteVideoRef : option HTMLVideoElement;
  localStreamRef : option StreamRef;
  streams : gmap nat (list MediaStreamTrack);
  conns : list MediaConnection;
  toasts : list Toast
}.

(** The component before its effects have run: the initial values of the
    [useState] and [useRef] calls; the two video elements are mounted, since
    the JSX renders them unconditionally and effects run after mount. *)
Definition initialPage : Page :=
  mkPage None false false None "" "" None false false false
         (Some (mkVideo None)) (Some (mkVideo None)) None ∅ [] [].

(** ** Handler bodies as state transformers *)

Definition M (A : Type) : Type := Page -> A * Page.

Definition ret {A} (a : A) : M A := fun s => (a, s).

Definition bind {A B} (m : M A) (k : A -> M B) : M B :=
  fun s => let (a, s') := m s in k a s'.

Definition gets {A} (f : Page -> A) : M A := fun s => (f s, s).

Definition modify (f : Page -> Page) : M unit := fun s => (tt, f s).

Definition exec {A} (m : M A) (s : Page) : Page := snd (m s).

Declare Scope page_scope.
Delimit Scope page_scope with page.
Notation "x <- c ;; k" := (bind c (fun x => k))
  (at level 100, c at next level, right associativity) : page_scope.
Notation "c ;; k" := (bind c (fun _ => k))
  (at level 100, right associativity) : page_scope.
Local Open Scope page_scope.

(** When [b] holds run [m], as in [if (b) { m }]. *)
Definition when (b : bool) (m : M unit) : M unit := if b then m else ret tt.

(** The state setters returned by [useState]. *)
Definition setHasCameraPermission (v : option bool) : M unit :=
  modify (fun s =>
    mkPage v (isVideoMuted s) (isAudioMuted s) (peer s) (peerId s)
          (remotePeerIdInput s) (currentCall s) (isConnected s)
          (isCallActive s) (hasRemoteStream s) (localVideoRef s)
          (remoteVideoRef s) (localStreamRef s) (streams s) (conns s)
          (toasts s)).
Definition setIsVideoMuted (v : bool) : M unit :=
  modify (fun s =>
    mkPage (hasCameraPermission s) v (isAudioMuted s) (peer s) (peerId s)
          (remotePeerIdInput s) (currentCall s) (isConnected s)
          (isCallActive s) (hasRemoteStream s) (localVideoRef s)
          (remoteVideoRef s) (localStreamRef s) (streams s) (conns s)
          (toasts s)).
Definition setIsAudioMuted (v : bool) : M unit :=
  modify (fun s =>
    mkPage (hasCameraPermission s) (isVideoMuted s) v (peer s) (peerId s)
          (remotePeerIdInput s) (currentCall s) (isConnected s)
          (isCallActive s) (hasRemoteStream s) (localVideoRef s)
          (remoteVideoRef s) (localStreamRef s) (streams s) (conns s)
          (toasts s)).
Definition setPeer (v : option Peer) : M unit :=
  modify (fun s =>
    mkPage (hasCameraPermission s) (isVideoMuted s) (isAudioMuted s) v
          (peerId s) (remotePeerIdInput s) (currentCall s) (isConnected s)
          (isCallActive s) (hasRemoteStream s) (localVideoRef s)
          (remoteVideoRef s) (localStreamRef s) (streams s) (conns s)
          (toasts s)).
Definition setPeerId (v : string) : M unit :=
  modify (fun s =>
    mkPage (hasCameraPermission s) (isVideoMuted s) (isAudioMuted s) (peer s)
          v (remotePeerIdInput s) (currentCall s) (isConnected s)
          (isCallActive s) (hasRemoteStream s) (localVideoRef s)
          (remoteVideoRef s) (localStreamRef s) (streams s) (conns s)
          (toasts s)).
Definition setRemotePeerIdInput (v : string) : M unit :=
  modify (fun s =>
    mkPage (hasCameraPermission s) (isVideoMuted s) (isAudioMuted s) (peer s)
          (peerId s) v (currentCall s) (isConnected s) (isCallActive s)
          (hasRemoteStream s) (localVideoRef s) (remoteVideoRef s)
          (localStreamRef s) (streams s) (conns s) (toasts s)).
Definition setCurrentCall (v : option CallRef) : M unit :=
  modify (fun s =>
    mkPage (hasCameraPermission s) (isVideoMuted s) (isAudioMuted s) (peer s)
          (peerId s) (remotePeerIdInput s) v (isConnected s) (isCallActive s)
          (hasRemoteStream s) (localVideoRef s) (remoteVideoRef s)
          (localStreamRef s) (streams s) (conns s) (toasts s)).
Definition setIsConnected (v : bool) : M unit :=
  modify (fun s =>
    mkPage (hasCameraPermission s) (isVideoMuted s) (isAudioMuted s) (peer s)
          (peerId s) (remotePeerIdInput s) (currentCall s) v (isCallActive s)
          (hasRemoteStream s) (localVideoRef s) (remoteVideoRef s)
          (localStreamRef s) (streams s) (conns s) (toasts s)).
Definition setIsCallActive (v : bool) : M unit :=
  modify (fun s =>
    mkPage (hasCameraPermission s) (isVideoMuted s) (isAudioMuted s) (peer s)
          (peerId s) (remotePeerIdInput s) (currentCall s) (isConnected s) v
          (hasRemoteStream s) (localVideoRef s) (remoteVideoRef s)
          (localStreamRef s) (streams s) (conns s) (toasts s)).
Definition setHasRemoteStream (v : bool) : M unit :=
  modify (fun s =>
    mkPage (hasCameraPermission s) (isVideoMuted s) (isAudioMuted s) (peer s)
          (peerId s) (remotePeerIdInput s) (currentCall s) (isConnected s)
          (isCallActive s) v (localVideoRef s) (remoteVideoRef s)
          (localStreamRef s) (streams s) (conns s) (toasts s)).

(** Writes to the ref cells and to the objects outside React. *)
Definition set_localVideoRef (v : option HTMLVideoElement) : M unit :=
  modify (fun s =>
    mkPage (hasCameraPermission s) (isVideoMuted s) (isAudioMuted s) (peer s)
          (peerId s) (remotePeerIdInput s) (currentCall s) (isConnected s)
          (isCallActive s) (hasRemoteStream s) v (remoteVideoRef s)
          (localStreamRef s) (streams s) (conns s) (toasts s)).
Definition set_remoteVideoRef (v : option HTMLVideoElement) : M unit :=
  modify (fun s =>
    mkPage (hasCameraPermission s) (isVideoMuted s) (isAudioMuted s) (peer s)
          (peerId s) (remotePeerIdInput s) (currentCall s) (isConnected s)
          (isCallActive s) (hasRemoteStream s) (localVideoRef s) v
          (localStreamRef s) (streams s) (conns s) (toasts s)).
Definition set_localStreamRef (v : option StreamRef) : M unit :=
  modify (fun s =>
    mkPage (hasCameraPermission s) (isVideoMuted s) (isAudioMuted s) (peer s)
          (peerId s) (remotePeerIdInput s) (currentCall s) (isConnected s)
          (isCallActive s) (hasRemoteStream s) (localVideoRef s)
          (remoteVideoRef s) v (streams s) (conns s) (toasts s)).
Definition set_streams (v : gmap nat (list MediaStreamTrack)) : M unit :=
  modify (fun s =>
    mkPage (hasCameraPermission s) (isVideoMuted s) (isAudioMuted s) (peer s)
          (peerId s) (remotePeerIdInput s) (currentCall s) (isConnected s)
          (isCallActive s) (hasRemoteStream s) (localVideoRef s)
          (remoteVideoRef s) (localStreamRef s) v (conns s) (toasts s)).
Definition set_conns (v : list MediaConnection) : M unit :=
  modify (fun s =>
    mkPage (hasCameraPermission s) (isVideoMuted s) (isAudioMuted s) (peer s)
          (peerId s) (remotePeerIdInput s) (currentCall s) (isConnected s)
          (isCallActive s) (hasRemoteStream s) (localVideoRef s)
          (remoteVideoRef s) (localStreamRef s) (streams s) v (toasts s)).
Definition set_toasts (v : list Toast) : M unit :=
  modify (fun s =>
    mkPage (hasCameraPermission s) (isVideoMuted s) (isAudioMuted s) (peer s)
          (peerId s) (remotePeerIdInput s) (currentCall s) (isConnected s)
          (isCallActive s) (hasRemoteStream s) (localVideoRef s)
          (remoteVideoRef s) (localStreamRef s) (streams s) (conns s) v).

(** ** Operations of the toast hook, the DOM and PeerJS *)

#[global] Instance TrackKind_eq_dec : EqDecision TrackKind.
Proof. solve_decision. Defined.

(** [showToast(title, description, variant)]; an omitted variant is the
    default one. *)
Definition showToast (t d : string) (v : Variant) : M unit :=
  ts <- gets toasts ;;
  set_toasts (ts ++ [mkToast t d v]).

(** [if (remoteVideoRef.current) { remoteVideoRef.current.srcObject = v }].
    The [play()] call that follows a non-null assignment only logs. *)
Definition bind_remoteVideo (v : option StreamRef) : M unit :=
  r <- gets remoteVideoRef ;;
  match r with
  | Some _ => set_remoteVideoRef (Some (mkVideo v))
  | None => ret tt
  end.

Definition bind_localVideo (v : option StreamRef) : M unit :=
  r <- gets localVideoRef ;;
  match r with
  | Some _ => set_localVideoRef (Some (mkVideo v))
  | None => ret tt
  end.

Definition update_conn (call : CallRef)
    (f : MediaConnection -> MediaConnection) : M unit :=
  cs <- gets conns ;;
  set_conns (alter f call cs).

(** [call.on(name, closure)]. *)
Definition call_on (call : CallRef) (n : CallEventName) (c : Closure) : M unit :=
  update_conn call (fun k =>
    mkConn (conn_peer k) (conn_localStream k) (conn_closeCalls k)
           (conn_listeners k ++ [(n, c)])).

(** [call.answer(stream)]. *)
Definition call_answer (call : CallRef) (st : StreamRef) : M unit :=
  update_conn call (fun k =>
    mkConn (conn_peer k) (Some st) (conn_closeCalls k) (conn_listeners k)).

(** [call.close()]: the connection counts the requests; what the transport
    does with them is PeerJS's business, and the relay's notification comes
    back as a [close] event. *)
Definition call_close (call : CallRef) : M unit :=
  update_conn call (fun k =>
    mkConn (conn_peer k) (conn_localStream k) (S (conn_closeCalls k))
           (conn_listeners k)).

(** [peer.call(remote, stream)]: a new connection towards [remote]. *)
Definition peer_call (remote : string) (st : StreamRef) : M CallRef :=
  cs <- gets conns ;;
  set_conns (cs ++ [mkConn remote (Some st) 0 []]) ;;
  ret (length cs).

(** The connection PeerJS builds when an offer from [from] comes in, before
    it hands it to the page's [on('call')] handler. *)
Definition incoming (from : string) : M CallRef :=
  cs <- gets conns ;;
  set_conns (cs ++ [mkConn from None 0 []]) ;;
  ret (length cs).

(** JavaScript truthiness of a string: [!s] holds for the empty string. *)
Definition truthy (s : string) : bool := negb (String.eqb s "").

(** What a [MediaConnection] delivers. *)
Inductive CallEvent := Stream (remoteStream : StreamRef) | Close | Error.

Definition event_name (e : CallEvent) : CallEventName :=
  match e with Stream _ => ev_stream | Close => ev_close | Error => ev_error end.

#[global] Instance CallEventName_eq_dec : EqDecision CallEventName.
Proof. solve_decision. Defined.

(** The three ways the [getUserMedia] request of [getCameraPermission] ends:
    no [navigator.mediaDevices], the promise resolved with a stream, the
    promise rejected. *)
Inductive MediaOutcome :=
| Unsupported
| Granted (stream : StreamRef) (ts : list MediaStreamTrack)
| Denied.

(** ** The handlers of the two pages *)

Section Handlers.

Variable role : Role.

(** The words in which the pages differ. *)
Definition self : string :=
  match role with Patient => "Patient" | Doctor => "Doctor" end.

Definition other : string :=
  match role with Patient => "Doctor" | Doctor => "Patient" end.

Definition other_lower : string :=
  match role with Patient => "doctor" | Doctor => "patient" end.

Definition generateId (rnd : string) : string :=
  match role with
  | Patient => generatePatientId rnd
  | Doctor => generateDoctorId rnd
  end.

(** [call.on('stream', ...)], page.tsx 95-102 and 200-207,
    doctor/page.tsx 67-74 and 165-172. *)
Definition on_stream (remoteStream : StreamRef) : M unit :=
  setHasRemoteStream true ;;
  bind_remoteVideo (Some remoteStream).

(** [call.on('close', ...)], page.tsx 104-112 and 209-217,
    doctor/page.tsx 76-84 and 174-182. *)
Definition on_close : M unit :=
  setIsCallActive false ;;
  setCurrentCall None ;;
  setHasRemoteStream false ;;
  bind_remoteVideo None.

(** [call.on('error', ...)] of an answered call, page.tsx 114-117 and
    doctor/page.tsx 86-89. *)
Definition on_error_answered : M unit :=
  showToast "Call Error" "There was an issue with the video call"
            v_destructive.

(** [call.on('error', ...)] of a placed call, page.tsx 219-225 and
    doctor/page.tsx 184-190. *)
Definition on_error_placed : M unit :=
  setIsCallActive false ;;
  setCurrentCall None ;;
  setHasRemoteStream false ;;
  showToast "Call Failed"
            ("Could not connect to " ++ other_lower ++ ". Please check the "
             ++ other ++ " ID.")
            v_destructive.

Definition run_closure (c : Closure) (e : CallEvent) : M unit :=
  match c, e with
  | answered_stream, Stream rs => on_stream rs
  | placed_stream, Stream rs => on_stream rs
  | answered_close, Close => on_close
  | placed_close, Close => on_close
  | answered_error, Error => on_error_answered
  | placed_error, Error => on_error_placed
  | _, _ => ret tt
  end.

Fixpoint run_listeners (ls : list (CallEventName * Closure)) (e : CallEvent)
    : M unit :=
  match ls with
  | [] => ret tt
  | (n, c) :: ls' =>
      when (bool_decide (n = event_name e)) (run_closure c e) ;;
      run_listeners ls' e
  end.

(** The event emitter of a connection: the listeners registered for the
    event's name run in registration order. *)
Definition emit (call : CallRef) (e : CallEvent) : M unit :=
  cs <- gets conns ;;
  match cs !! call with
  | Some k => run_listeners (conn_listeners k) e
  | None => ret tt
  end.

(** [newPeer.on('call', ...)], page.tsx 86-124; [p.on('call', ...)],
    doctor/page.tsx 60-96. *)
Definition on_call (call : CallRef) : M unit :=
  ls <- gets localStreamRef ;;
  match ls with
  | Some st =>
      call_answer call st ;;
      setCurrentCall (Some call) ;;
      setIsCallActive true ;;
      call_on call ev_stream answered_stream ;;
      call_on call ev_close answered_close ;;
      call_on call ev_error answered_error ;;
      match role with
      | Patient =>
          showToast "Doctor Connected!" "Video call started with Doctor"
                    v_default
      | Doctor =>
          showToast "Patient Connected!"
                    "Video consultation started with Patient" v_default
      end
  | None =>
      showToast "Cannot Answer Call"
                "Camera not ready. Please refresh and try again."
                v_destructive
  end.

(** [newPeer.on('open', ...)], page.tsx 79-84, doctor/page.tsx 53-58. *)
Definition on_open (id : string) : M unit :=
  setPeerId id ;;
  setIsConnected true ;;
  showToast "Connected to Server" ("Your " ++ self ++ " ID: " ++ id) v_default.

(** [newPeer.on('error', ...)], page.tsx 126-129, doctor/page.tsx 98-101. *)
Definition on_peer_error (message : string) : M unit :=
  showToast "Connection Error" ("Failed to connect: " ++ message)
            v_destructive.

(** [initializePeer], page.tsx 65-132, and the body of the first effect of
    doctor/page.tsx 39-103: the listeners above are registered on the new
    [Peer], which is then stored. *)
Definition initializePeer (rnd : string) : M unit :=
  setPeer (Some (mkPeer (generateId rnd))).

(** [makeCall], page.tsx 189-228, doctor/page.tsx 154-193. *)
Definition makeCall : M unit :=
  p <- gets peer ;;
  rid <- gets remotePeerIdInput ;;
  ls <- gets localStreamRef ;;
  match p, truthy rid, ls with
  | Some _, true, Some st =>
      call <- peer_call rid st ;;
      setCurrentCall (Some call) ;;
      setIsCallActive true ;;
      call_on call ev_stream placed_stream ;;
      call_on call ev_close placed_close ;;
      call_on call ev_error placed_error ;;
      showToast ("Calling " ++ other ++ "...")
                ("Connecting to " ++ other ++ " ID: " ++ rid) v_default
  | _, _, _ =>
      showToast "Cannot Make Call"
                ("Please ensure you're connected and have entered a "
                 ++ other_lower ++ " ID")
                v_destructive
  end.

(** [endCall], page.tsx 230-241, doctor/page.tsx 195-206. *)
Definition endCall : M unit :=
  c <- gets currentCall ;;
  match c with
  | Some call =>
      call_close call ;;
      setCurrentCall None ;;
      setIsCallActive false ;;
      setHasRemoteStream false ;;
      bind_remoteVideo None ;;
      showToast "Call Ended" "The consultation has been terminated" v_default
  | None => ret tt
  end.

(** [stream.getVideoTracks()] and [stream.getAudioTracks()] followed by
    [[0]]: the first track of the kind, with its position in the stream;
    [None] stands for [undefined]. *)
Definition first_track (k : TrackKind) (ts : list MediaStreamTrack)
    : option (nat * MediaStreamTrack) :=
  list_find (fun t => kind t = k) ts.

(** [track.enabled = !track.enabled]. *)
Definition flip_enabled (t : MediaStreamTrack) : MediaStreamTrack :=
  mkTrack (kind t) (negb (enabled t)) (readyState t).

(** [toggleVideo], page.tsx 243-251, doctor/page.tsx 208-216.  The track
    object is written in place, in the store every holder of the stream
    shares, and the mute cell is set from the flag just written. *)
Definition toggleVideo : M unit :=
  ls <- gets localStreamRef ;;
  match ls with
  | Some st =>
      ss <- gets streams ;;
      match ss !! st with
      | Some ts =>
          match first_track video ts with
          | Some (i, videoTrack) =>
              set_streams (<[st := <[i := flip_enabled videoTrack]> ts]> ss) ;;
              setIsVideoMuted (negb (enabled (flip_enabled videoTrack)))
          | None => ret tt
          end
      | None => ret tt
      end
  | None => ret tt
  end.

(** [toggleAudio], page.tsx 253-261, doctor/page.tsx 218-226. *)
Definition toggleAudio : M unit :=
  ls <- gets localStreamRef ;;
  match ls with
  | Some st =>
      ss <- gets streams ;;
      match ss !! st with
      | Some ts =>
          match first_track audio ts with
          | Some (i, audioTrack) =>
              set_streams (<[st := <[i := flip_enabled audioTrack]> ts]> ss) ;;
              setIsAudioMuted (negb (enabled (flip_enabled audioTrack)))
          | None => ret tt
          end
      | None => ret tt
      end
  | None => ret tt
  end.

(** [getCameraPermission], page.tsx 145-173 and doctor/page.tsx 110-138,
    from the point where the outcome of the capture request is known.  A
    granted stream enters the store with the tracks the browser made. *)
Definition getCameraPermission (o : MediaOutcome) : M unit :=
  match o with
  | Unsupported =>
      setHasCameraPermission (Some false) ;;
      showToast "Unsupported Browser"
                "Your browser does not support camera access." v_destructive
  | Granted stream ts =>
      ss <- gets streams ;;
      set_streams (<[stream := ts]> ss) ;;
      setHasCameraPermission (Some true) ;;
      set_localStreamRef (Some stream) ;;
      bind_localVideo (Some stream) ;;
      showToast "Camera Ready"
                "Your camera and microphone are ready for consultation"
                v_default
  | Denied =>
      setHasCameraPermission (Some false) ;;
      showToast "Camera Access Denied"
                "Please enable camera and microphone permissions."
                v_destructive
  end.

End Handlers.

(** ** The event loop *)

(** What the cooperative event loop delivers to a mounted page: the first
    effect, the [Peer]'s events, the outcome of the capture request, the
    events of a connection, and the user's actions on the rendered controls. *)
Inductive Event :=
| Mount (rnd : string)
| PeerOpen (id : string)
| PeerCall (from : string)
| PeerError (message : string)
| Media (o : MediaOutcome)
| Signal (call : CallRef) (e : CallEvent)
| TypeRemoteId (v : string)
| ClickCall
| ClickEnd
| ClickVideo
| ClickAudio.

(** The controls as the JSX renders them.  The call button sits inside
    [{!isCallActive && (...)}] and carries
    [disabled={!remotePeerIdInput || !isConnected}] (page.tsx 321-335,
    doctor/page.tsx 251-264); the end button carries
    [disabled={!isCallActive}] and the two toggles
    [disabled={!hasCameraPermission}] (page.tsx 427-457,
    doctor/page.tsx 357-387). *)
Definition callButton_enabled (s : Page) : bool :=
  negb (isCallActive s)
  && negb (negb (truthy (remotePeerIdInput s)) || negb (isConnected s)).

Definition endButton_enabled (s : Page) : bool := isCallActive s.

Definition toggleButton_enabled (s : Page) : bool :=
  match hasCameraPermission s with
  | Some true => true
  | _ => false
  end.

Section EventLoop.

Variable role : Role.

(** A click on a control runs its handler only if the control is rendered
    and enabled. *)
Definition click (enabled_in : Page -> bool) (handler : M unit) : M unit :=
  b <- gets enabled_in ;;
  when b handler.

Definition step (ev : Event) : M unit :=
  match ev with
  | Mount rnd => initializePeer role rnd
  | PeerOpen id => on_open role id
  | PeerCall from => call <- incoming from ;; on_call role call
  | PeerError message => on_peer_error message
  | Media o => getCameraPermission o
  | Signal call e => emit role call e
  | TypeRemoteId v => setRemotePeerIdInput v
  | ClickCall => click callButton_enabled (makeCall role)
  | ClickEnd => click endButton_enabled endCall
  | ClickVideo => click toggleButton_enabled toggleVideo
  | ClickAudio => click toggleButton_enabled toggleAudio
  end.

(** A track as [getUserMedia] hands it out: enabled and live. *)
Definition fresh_track (t : MediaStreamTrack) : bool :=
  enabled t && match readyState t with live => true | ended => false end.

(** What the environment may deliver in a state: the first effect runs
    once; a [Peer] emits only after it was built; the single capture request
    settles once, with a new stream of fresh tracks; a connection emits only
    if PeerJS has built it.  User actions can come at any time. *)
Definition admissible (s : Page) (ev : Event) : bool :=
  match ev with
  | Mount _ => bool_decide (peer s = None)
  | PeerOpen _ | PeerCall _ | PeerError _ => bool_decide (is_Some (peer s))
  | Media o =>
      bool_decide (hasCameraPermission s = None)
      && match o with
         | Granted stream ts =>
             bool_decide (streams s !! stream = None) && forallb fresh_track ts
         | _ => true
         end
  | Signal call _ => bool_decide (call < length (conns s))
  | _ => true
  end.

(** Runs of the page from a state. *)
Fixpoint run (evs : list Event) (s : Page) : option Page :=
  match evs with
  | [] => Some s
  | ev :: evs' =>
      if admissible s ev then run evs' (exec (step ev) s) else None
  end.

Inductive reachable : Page -> Prop :=
| reachable_initial : reachable initialPage
| reachable_step s ev :
    reachable s -> admissible s ev = true -> reachable (exec (step ev) s).

End EventLoop.

(** ** Vocabulary of the statements *)

(** The listeners an answered call and a placed call end up with. *)
Definition answered_listeners : list (CallEventName * Closure) :=
  [(ev_stream, answered_stream); (ev_close, answered_close);
   (ev_error, answered_error)].

Definition placed_listeners : list (CallEventName * Closure) :=
  [(ev_stream, placed_stream); (ev_close, placed_close);
   (ev_error, placed_error)].

(** One more [close()] on a connection. *)
Definition closed_once (k : MediaConnection) : MediaConnection :=
  mkConn (conn_peer k) (conn_localStream k) (S (conn_closeCalls k))
         (conn_listeners k).

(** The session cells in their [Idle] values. *)
Definition idle (s : Page) : Prop :=
  currentCall s = None /\ isCallActive s = false /\ hasRemoteStream s = false.

(** The local stream is absent, or present without a track of kind [k]. *)
Definition lacks_track (k : TrackKind) (s : Page) : Prop :=
  localStreamRef s = None
  \/ exists st ts, localStreamRef s = Some st /\ streams s !! st = Some ts
                   /\ forall t, t ∈ ts -> kind t <> k.

(** The toasts of the pages, by the handler that shows them. *)
Definition cannot_answer : Toast :=
  mkToast "Cannot Answer Call"
          "Camera not ready. Please refresh and try again." v_destructive.

Definition connected (role : Role) : Toast :=
  match role with
  | Patient =>
      mkToast "Doctor Connected!" "Video call started with Doctor" v_default
  | Doctor =>
      mkToast "Patient Connected!" "Video consultation started with Patient"
              v_default
  end.

Definition call_error : Toast :=
  mkToast "Call Error" "There was an issue with the video call" v_destructive.

Definition call_failed (role : Role) : Toast :=
  mkToast "Call Failed"
          ("Could not connect to " ++ other_lower role
           ++ ". Please check the " ++ other role ++ " ID.")
          v_destructive.

Definition cannot_make_call (role : Role) : Toast :=
  mkToast "Cannot Make Call"
          ("Please ensure you're connected and have entered a "
           ++ other_lower role ++ " ID")
          v_destructive.

Definition calling (role : Role) (remote : string) : Toast :=
  mkToast ("Calling " ++ other role ++ "...")
          ("Connecting to " ++ other role ++ " ID: " ++ remote) v_default.

Definition call_ended : Toast :=
  mkToast "Call Ended" "The consultation has been terminated" v_default.

(** The mute cell of kind [k] agrees with the first track of that kind. *)
Definition in_sync (k : TrackKind) (muted : bool)
    (ts : list MediaStreamTrack) : Prop :=
  forall i t, first_track k ts = Some (i, t) -> muted = negb (enabled t).

(** The invariant of the media cells: without a local stream nothing is
    muted; with one, permission is recorded, the stream is in the store and
    both mute cells agree with the tracks. *)
Definition media_inv (s : Page) : Prop :=
  match localStreamRef s with
  | None => isVideoMuted s = false /\ isAudioMuted s = false
  | Some st =>
      hasCameraPermission s = Some true
      /\ exists ts, streams s !! st = Some ts
                    /\ in_sync video (isVideoMuted s) ts
                    /\ in_sync audio (isAudioMuted s) ts
  end.

(** The cells the invariant reads. *)
Definition media (s : Page) :=
  (hasCameraPermission s, isVideoMuted s, isAudioMuted s, localStreamRef s,
   streams s).

(** Concrete scenarios: a camera with one video and one audio track, and
    the page a list of events leads to from the initial page. *)
Definition camera : list MediaStreamTrack :=
  [mkTrack video true live; mkTrack audio true live].

Definition play (role : Role) (evs : list Event) : Page :=
  fold_left (fun s ev => exec (step role ev) s) evs initialPage.

(** ** Unmount: releasing the camera *)

(** [track.stop()]. *)
Definition stop_track (t : MediaStreamTrack) : MediaStreamTrack :=
  mkTrack (kind t) (enabled t) ended.

(** The clean-up function of the camera effect, page.tsx 177-181 and
    doctor/page.tsx 142-146:
    [if (localStreamRef.current)
       localStreamRef.current.getTracks().forEach(track => track.stop())]. *)
Definition cleanup_camera : M unit :=
  ls <- gets localStreamRef ;;
  match ls with
  | Some st =>
      ss <- gets streams ;;
      match ss !! st with
      | Some ts => set_streams (<[st := stop_track <$> ts]> ss)
      | None => ret tt
      end
  | None => ret tt
  end.

(** ** The summary form of the patient page *)

(** The values of the form, page.tsx 263-272. *)
Record FormValues := mkForm {
  medicalHistory : string;
  vitals : string;
  labResults : string;
  imagingResults : string;
  preferredLanguage : string
}.

(** [z.string().min(1, "Required")] on one field: the issue it raises. *)
Definition min1 (name value : string) : list (string * string) :=
  if (1 <=? String.length value)%nat then [] else [(name, "Required")].

(** [formSchema], page.tsx 22-28: the issues of the five fields, in the
    order of the schema. *)
Definition formSchema (v : FormValues) : list (string * string) :=
  min1 "medicalHistory" (medicalHistory v)
  ++ min1 "vitals" (vitals v)
  ++ min1 "labResults" (labResults v)
  ++ min1 "imagingResults" (imagingResults v)
  ++ min1 "preferredLanguage" (preferredLanguage v).

Section Summary.

(** [TeleConsultationSupportOutput], the result type of the summary flow,
    which the page imports. *)
Variable Output : Type.

(** The patient page: the cells of the call session together with the two
    cells of the summary card, page.tsx 34-35. *)
Record Consultation := mkConsultation {
  page : Page;
  summary : option Output;
  isLoading : bool
}.

(** How the awaited [teleConsultationSupport(values)] ends. *)
Inductive FlowOutcome := Resolved (result : Output) | Rejected.

(** [onSubmit], page.tsx 274-287, up to the [await]. *)
Definition onSubmit_begin (c : Consultation) : Consultation :=
  mkConsultation (page c) None true.

(** [onSubmit] from the [await] on: the [try] branch or the [catch] branch,
    then the [finally]. *)
Definition onSubmit_settle (o : FlowOutcome) (c : Consultation)
    : Consultation :=
  match o with
  | Resolved result =>
      mkConsultation
        (exec (showToast "Summary Generated"
                         "Patient summary is ready for the consultation."
                         v_default) (page c))
        (Some result) false
  | Rejected =>
      mkConsultation
        (exec (showToast "Error"
                         "Failed to generate summary. Please try again."
                         v_destructive) (page c))
        (summary c) false
  end.

(** [form.handleSubmit(onSubmit)] behind the submit button, page.tsx 482
    and 505: the button is disabled while [isLoading]; the resolver runs
    the schema and [onSubmit] starts only if it raises no issue. *)
Definition handleSubmit (v : FormValues) (c : Consultation) : Consultation :=
  if isLoading c then c
  else match formSchema v with
       | [] => onSubmit_begin c
       | _ :: _ => c
       end.

End Summary.

Arguments mkConsultation {Output}.
Arguments page {Output}.
Arguments summary {Output}.
Arguments isLoading {Output}.
Arguments Resolved {Output}.
Arguments Rejected {Output}.
Arguments onSubmit_begin {Output}.
Arguments onSubmit_settle {Output}.
Arguments handleSubmit {Output}.

(** ** Invariants of the pages *)

(** The cells that mirror one another: the active flag and the call slot;
    the registration flag and the [Peer]; the remote-stream flag and the
    remote video element; the preview element and the local stream; the
    camera permission and the local stream. *)
Definition cells_inv (s : Page) : Prop :=
  match currentCall s with
  | Some _ => isCallActive s = true
  | None => isCallActive s = false
  end
  /\ (isConnected s = true -> is_Some (peer s))
  /\ (exists v, remoteVideoRef s = Some v
                /\ (hasRemoteStream s = true -> is_Some (srcObject v)))
  /\ localVideoRef s = Some (mkVideo (localStreamRef s))
  /\ (hasCameraPermission s = Some true <-> is_Some (localStreamRef s)).

(** A connection as the page leaves it: either untouched (an offer that
    was not answered), or carrying the page's local stream and the three
    listeners of an answered or of a placed call. *)
Definition conn_shape (s : Page) (k : MediaConnection) : Prop :=
  (conn_localStream k = None /\ conn_listeners k = [])
  \/ (is_Some (localStreamRef s)
      /\ conn_localStream k = localStreamRef s
      /\ (conn_listeners k = answered_listeners
          \/ conn_listeners k = placed_listeners)).

(** Every connection has its shape and was closed at most once; the stored
    call is a connection that carries the stream and was never closed. *)
Definition conns_inv (s : Page) : Prop :=
  (forall c k, conns s !! c = Some k ->
     conn_closeCalls k <= 1
     /\ (currentCall s = Some c -> conn_closeCalls k = 0)
     /\ conn_shape s k)
  /\ (forall c, currentCall s = Some c ->
        exists k, conns s !! c = Some k /\ is_Some (conn_localStream k)).

(** The cells other than the mute cells and the stored tracks. *)
Definition beside_tracks (s : Page) :=
  (hasCameraPermission s, peer s, peerId s, remotePeerIdInput s,
   currentCall s, isConnected s, isCallActive s, hasRemoteStream s,
   localVideoRef s, remoteVideoRef s, localStreamRef s, conns s, toasts s).

(** The events on which the pages show no notice. *)
Definition silent (ev : Event) : bool :=
  match ev with
  | Mount _ | TypeRemoteId _ | ClickVideo | ClickAudio => true
  | Signal _ (Stream _) | Signal _ Close => true
  | _ => false
  end.

(** The two notices of [onSubmit]. *)
Definition summary_generated : Toast :=
  mkToast "Summary Generated" "Patient summary is ready for the consultation."
          v_default.

Definition summary_failed : Toast :=
  mkToast "Error" "Failed to generate summary. Please try again."
          v_destructive.

(** Every field of the form holds at least one character. *)
Definition all_filled (v : FormValues) : Prop :=
  medicalHistory v <> "" /\ vitals v <> "" /\ labResults v <> ""
  /\ imagingResults v <> "" /\ preferredLanguage v <> "".

(** Every cell but the toasts. *)
Definition beside_toasts (s : Page) :=
  (hasCameraPermission s, isVideoMuted s, isAudioMuted s, peer s, peerId s,
   remotePeerIdInput s, currentCall s, isConnected s, isCallActive s,
   hasRemoteStream s, localVideoRef s, remoteVideoRef s, localStreamRef s,
   streams s, conns s).

(** * Properties *)

(** ** Participant identities *)

Module IdFacts.
Import JS.

Lemma toUpperCase_length s : String.length (toUpperCase s) = String.length s.
Proof. induction s as [|c s IH]; simpl; congruence. Qed.

Lemma substring_length n m s :
  String.length (String.substring n m s) = Nat.min m (String.length s - n).
Proof.
  revert n m. induction s as [|c s IH]; intros [|n] [|m]; simpl;
    rewrite ?IH; simpl; lia.
Qed.

Lemma substring_forallb p n m s :
  string_forallb p s = true -> string_forallb p (String.substring n m s) = true.
Proof.
  revert n m. induction s as [|c s IH]; intros [|n] [|m]; simpl; auto.
  - intros [-> H]%andb_true_iff. simpl. apply (IH 0 m H).
  - intros [_ H]%andb_true_iff. apply (IH n 0 H).
  - intros [_ H]%andb_true_iff. apply (IH n (S m) H).
Qed.

Lemma toUpperCase_char_upper36 c :
  is_lower36 c = true -> is_upper36 (toUpperCase_char c) = true.
Proof.
  destruct c as [[] [] [] [] [] [] [] []]; vm_compute; intros H;
    first [reflexivity | discriminate H].
Qed.

Lemma toUpperCase_upper36 s :
  string_forallb is_lower36 s = true ->
  string_forallb is_upper36 (toUpperCase s) = true.
Proof.
  induction s as [|c s IH]; simpl; [reflexivity|].
  intros [Hc Hs]%andb_true_iff.
  rewrite (toUpperCase_char_upper36 c Hc). simpl. auto.
Qed.

(** The random suffix, for every rendering an engine can produce: it holds
    as many characters as the rendering has fractional digits, but no more
    than eight, all of them upper-case base-36 digits. *)
Lemma suffix_shape rnd :
  is_rendering36 rnd = true ->
  String.length (toUpperCase (substr rnd 2 8))
    = Nat.min 8 (String.length rnd - 2)
  /\ string_forallb is_upper36 (toUpperCase (substr rnd 2 8)) = true.
Proof.
  intros H. split.
  - unfold substr. rewrite toUpperCase_length. apply substring_length.
  - apply toUpperCase_upper36. unfold substr.
    destruct rnd as [|a [|b [|c ds]]]; try reflexivity.
    change (String.substring 2 8 (String a (String b (String c ds))))
      with (String.substring 0 8 (String c ds)).
    apply substring_forallb.
    cbn [is_rendering36] in H.
    apply andb_true_iff in H as [H Hds].
    apply andb_true_iff in H as [_ Hc].
    cbn [string_forallb]. rewrite Hc, Hds. reflexivity.
Qed.

Lemma digit36_lower36 (d : N) : (d < 36)%N -> is_lower36 (digit36 d) = true.
Proof.
  intros H.
  assert (Hall : forallb (fun n => is_lower36 (digit36 (N.of_nat n)))
                         (seq 0 36) = true) by (vm_compute; reflexivity).
  rewrite forallb_forall in Hall.
  rewrite <- (N2Nat.id d). apply Hall. apply in_seq. lia.
Qed.

Lemma frac36_lower36 (fuel : nat) (r d : N) :
  (r < d)%N -> string_forallb is_lower36 (frac36 fuel r d) = true.
Proof.
  revert r. induction fuel as [|fuel IH]; intros r Hr; [reflexivity|].
  cbn [frac36]. destruct (r =? 0)%N; [reflexivity|].
  cbn [string_forallb]. rewrite digit36_lower36, IH; [reflexivity| |].
  - apply N.mod_lt. lia.
  - apply N.Div0.div_lt_upper_bound. lia.
Qed.

(** The exact expansion of a double in [[0, 1)] has the shape of a
    rendering. *)
Lemma toString36_rendering (m e : N) :
  (m < 2 ^ e)%N -> is_rendering36 (toString36 m e) = true.
Proof.
  intros H. unfold toString36.
  destruct (m =? 0)%N eqn:Hm; [reflexivity|].
  apply N.eqb_neq in Hm.
  assert (He : N.to_nat e <> 0).
  { intros He. assert (e = 0%N) by lia. subst e. cbn in H. lia. }
  pose proof (frac36_lower36 (N.to_nat e) m (2 ^ e) H) as Hd.
  destruct (N.to_nat e) as [|fuel]; [congruence|].
  cbn [frac36] in *. rewrite (proj2 (N.eqb_neq m 0) Hm) in *.
  cbn [string_forallb] in Hd. exact Hd.
Qed.

(** So the suffix has eight characters exactly when the rendering has at
    least eight fractional digits. *)
Lemma suffix_full rnd :
  is_rendering36 rnd = true ->
  (String.length (toUpperCase (substr rnd 2 8)) = 8 <-> 10 <= String.length rnd).
Proof. intros [H _]%suffix_shape. rewrite H. lia. Qed.

End IdFacts.

Example toString36_half : JS.toString36 1 1 = "0.i".
Proof. reflexivity. Qed.

Example toString36_zero : JS.toString36 0 0 = "0".
Proof. reflexivity. Qed.

Example toString36_quarter : JS.toString36 1 2 = "0.9".
Proof. reflexivity. Qed.

(** C6.  The identity generators do not always produce eight characters
    after the hyphen.  When [Math.random()] returns [1/2], whose radix-36
    rendering is ["0.i"], the patient identity is ["PT-I"] and the doctor
    identity ["DR-I"]: a one-character suffix.  When it returns [0], the
    suffix is empty. *)
Theorem generated_id_short_suffix :
  JS.toString36 1 1 = "0.i"
  /\ generatePatientId (JS.toString36 1 1) = "PT-I"
  /\ generateDoctorId (JS.toString36 1 1) = "DR-I"
  /\ generatePatientId (JS.toString36 0 0) = "PT-"
  /\ generateDoctorId (JS.toString36 0 0) = "DR-".
Proof. repeat split; reflexivity. Qed.

(** ** Call sessions *)

(** Proofs about a handler on an arbitrary page open the page into its
    cells and evaluate the handler body by value, so that the page stays in
    constructor form from one setter to the next. *)
Ltac page_cells :=
  cbn [hasCameraPermission isVideoMuted isAudioMuted peer peerId
       remotePeerIdInput currentCall isConnected isCallActive hasRemoteStream
       localVideoRef remoteVideoRef localStreamRef streams conns toasts] in *.

Ltac open_page s := destruct s; page_cells.

Ltac run_handler :=
  cbv [exec step click when emit on_call incoming makeCall endCall
       peer_call call_answer call_on call_close update_conn on_stream
       on_close on_error_answered on_error_placed showToast bind_remoteVideo
       bind_localVideo setHasCameraPermission setIsVideoMuted setIsAudioMuted
       setPeer setPeerId setRemotePeerIdInput setCurrentCall setIsConnected
       setIsCallActive setHasRemoteStream set_localVideoRef set_remoteVideoRef
       set_localStreamRef set_streams set_conns set_toasts bind gets modify
       ret fst snd hasCameraPermission isVideoMuted isAudioMuted peer peerId
       remotePeerIdInput currentCall isConnected isCallActive hasRemoteStream
       localVideoRef remoteVideoRef localStreamRef streams conns toasts].

(** C3.  An inbound offer that arrives while the local media stream is
    absent leaves every cell of the component as it was: no call is stored,
    the session flags keep their values (so an idle session stays idle), the
    connection
    PeerJS built for the offer is left unanswered and without listeners, no
    stream or track is touched, and exactly one notice, the destructive
    "Cannot Answer Call" toast, is shown. *)
Theorem offer_without_local_media (role : Role) (s : Page) (from : string) :
  localStreamRef s = None ->
  exec (step role (PeerCall from)) s
  = mkPage (hasCameraPermission s) (isVideoMuted s) (isAudioMuted s) (peer s)
           (peerId s) (remotePeerIdInput s) (currentCall s) (isConnected s)
           (isCallActive s) (hasRemoteStream s) (localVideoRef s)
           (remoteVideoRef s) None (streams s)
           (conns s ++ [mkConn from None 0 []])
           (toasts s ++ [cannot_answer]).
Proof.
  intros H. open_page s. subst. run_handler. reflexivity.
Qed.

Lemma offer_without_local_media_witness :
  let s := play Patient [Mount "0.k3j5x9q2wab"; Media Denied] in
  localStreamRef s = None
  /\ exec (step Patient (PeerCall "DR-XYZ98765")) s
     = mkPage (hasCameraPermission s) (isVideoMuted s) (isAudioMuted s)
              (peer s) (peerId s) (remotePeerIdInput s) (currentCall s)
              (isConnected s) (isCallActive s) (hasRemoteStream s)
              (localVideoRef s) (remoteVideoRef s) None (streams s)
              (conns s ++ [mkConn "DR-XYZ98765" None 0 []])
              (toasts s ++ [cannot_answer]).
Proof.
  intros s.
  assert (H : localStreamRef s = None) by (vm_compute; reflexivity).
  split; [exact H|].
  exact (offer_without_local_media Patient s "DR-XYZ98765" H).
Defined.

(** Scenario C of the specification: camera denied, then an inbound offer. *)
Example scenario_C :
  let s := play Patient [Mount "0.k3j5x9q2wab"; PeerOpen "PT-K3J5X9Q2";
                         Media Denied; PeerCall "DR-XYZ98765"] in
  idle s /\ last (toasts s) = Some cannot_answer
  /\ length (filter (fun t => t = cannot_answer) (toasts s)) = 1.
Proof. vm_compute. repeat split; reflexivity. Qed.

(** Writing to the connection PeerJS has just appended. *)
Lemma alter_new {A} (f : A -> A) (l : list A) (x : A) :
  alter f (length l) (l ++ [x]) = l ++ [f x].
Proof.
  replace (length l) with (length l + 0) by lia.
  rewrite alter_app_r. reflexivity.
Qed.

Lemma lookup_new {A} (l : list A) (x : A) : (l ++ [x]) !! length l = Some x.
Proof. apply list_lookup_middle. reflexivity. Qed.

(** An inbound offer that finds the local stream is answered whatever the
    session cells hold. *)
Lemma on_call_answers (role : Role) (s : Page) (from : string) (st : StreamRef) :
  localStreamRef s = Some st ->
  exec (step role (PeerCall from)) s
  = mkPage (hasCameraPermission s) (isVideoMuted s) (isAudioMuted s) (peer s)
           (peerId s) (remotePeerIdInput s) (Some (length (conns s)))
           (isConnected s) true (hasRemoteStream s) (localVideoRef s)
           (remoteVideoRef s) (localStreamRef s) (streams s)
           (conns s ++ [mkConn from (Some st) 0 answered_listeners])
           (toasts s ++ [connected role]).
Proof.
  intros Hst. open_page s. subst.
  destruct role; run_handler; rewrite !alter_new; reflexivity.
Qed.

(** A [stream] event on a connection that carries the page's listeners sets
    the remote-stream flag and shows the stream in the remote video
    element, if mounted. *)
Lemma stream_received (role : Role) (s : Page) (call : CallRef)
    (k : MediaConnection) (rs : StreamRef) :
  conns s !! call = Some k ->
  conn_listeners k = answered_listeners \/ conn_listeners k = placed_listeners ->
  exec (step role (Signal call (Stream rs))) s
  = mkPage (hasCameraPermission s) (isVideoMuted s) (isAudioMuted s) (peer s)
           (peerId s) (remotePeerIdInput s) (currentCall s) (isConnected s)
           (isCallActive s) true (localVideoRef s)
           ((fun _ => mkVideo (Some rs)) <$> remoteVideoRef s)
           (localStreamRef s) (streams s) (conns s) (toasts s).
Proof.
  intros Hk Hls. unfold exec, step, emit, bind, gets. cbn [fst snd].
  rewrite Hk. clear Hk. open_page s.
  destruct Hls as [-> | ->], remoteVideoRef0; reflexivity.
Qed.

(** C4.  An inbound offer from [from] that arrives while the session is
    idle and the local stream [st] is present is answered at once with [st]
    (the handler has no accept step): exactly one connection is added, it
    carries [st] and the three listeners, it becomes the current call and the
    session is marked active.  When that connection then delivers its
    stream, the session is still the one whose remote identity is [from],
    the remote-stream flag is set and the remote video element, if mounted,
    shows the stream. *)
Theorem offer_auto_answered (role : Role) (s : Page) (from : string)
    (st rs : StreamRef) :
  localStreamRef s = Some st ->
  idle s ->
  let call := length (conns s) in
  let s1 := exec (step role (PeerCall from)) s in
  let s2 := exec (step role (Signal call (Stream rs))) s1 in
  conns s1 = conns s ++ [mkConn from (Some st) 0 answered_listeners]
  /\ currentCall s1 = Some call
  /\ isCallActive s1 = true
  /\ hasRemoteStream s1 = false
  /\ remoteVideoRef s1 = remoteVideoRef s
  /\ conns s2 = conns s1
  /\ currentCall s2 = Some call
  /\ conn_peer <$> conns s2 !! call = Some from
  /\ isCallActive s2 = true
  /\ hasRemoteStream s2 = true
  /\ remoteVideoRef s2 = (fun _ => mkVideo (Some rs)) <$> remoteVideoRef s.
Proof.
  intros Hst (Hcur & Hact & Hrem) call s1 s2.
  assert (H1 : s1 = mkPage (hasCameraPermission s) (isVideoMuted s)
                 (isAudioMuted s) (peer s) (peerId s) (remotePeerIdInput s)
                 (Some call) (isConnected s) true (hasRemoteStream s)
                 (localVideoRef s) (remoteVideoRef s) (localStreamRef s)
                 (streams s)
                 (conns s ++ [mkConn from (Some st) 0 answered_listeners])
                 (toasts s ++ [connected role]))
    by apply (on_call_answers role s from st Hst).
  assert (Hk : conns s1 !! call
               = Some (mkConn from (Some st) 0 answered_listeners))
    by (rewrite H1; apply lookup_new).
  assert (H2 : s2 = exec (step role (Signal call (Stream rs))) s1)
    by reflexivity.
  rewrite (stream_received role s1 call _ rs Hk (or_introl eq_refl)) in H2.
  clearbody s2. subst s2. page_cells. rewrite Hk. clearbody s1. subst s1.
  page_cells. repeat split; try reflexivity. exact Hrem.
Qed.

Lemma offer_auto_answered_witness :
  let s := play Patient [Mount "0.k3j5x9q2wab"; PeerOpen "PT-K3J5X9Q2";
                         Media (Granted 0 camera)] in
  localStreamRef s = Some 0
  /\ idle s
  /\ (let call := length (conns s) in
      let s1 := exec (step Patient (PeerCall "DR-XYZ98765")) s in
      let s2 := exec (step Patient (Signal call (Stream 1))) s1 in
      conns s1 = conns s ++ [mkConn "DR-XYZ98765" (Some 0) 0 answered_listeners]
      /\ currentCall s1 = Some call
      /\ isCallActive s1 = true
      /\ hasRemoteStream s1 = false
      /\ remoteVideoRef s1 = remoteVideoRef s
      /\ conns s2 = conns s1
      /\ currentCall s2 = Some call
      /\ conn_peer <$> conns s2 !! call = Some "DR-XYZ98765"
      /\ isCallActive s2 = true
      /\ hasRemoteStream s2 = true
      /\ remoteVideoRef s2 = (fun _ => mkVideo (Some 1)) <$> remoteVideoRef s).
Proof.
  intros s.
  assert (Hst : localStreamRef s = Some 0) by (vm_compute; reflexivity).
  assert (Hidle : idle s) by (vm_compute; repeat split; reflexivity).
  split; [exact Hst|]. split; [exact Hidle|].
  exact (offer_auto_answered Patient s "DR-XYZ98765" 0 1 Hst Hidle).
Defined.

(** Scenario B of the specification. *)
Example scenario_B :
  let s := play Patient [Mount "0.k3j5x9q2wab"; PeerOpen "PT-K3J5X9Q2";
                         Media (Granted 0 camera); PeerCall "DR-XYZ98765";
                         Signal 0 (Stream 1)] in
  isCallActive s = true /\ hasRemoteStream s = true
  /\ currentCall s ≫= (fun c => conn_peer <$> conns s !! c)
     = Some "DR-XYZ98765".
Proof. vm_compute. repeat split; reflexivity. Qed.

(** C9.  A [close] event on a connection that carries the page's listeners,
    whether the call was answered or placed, resets the session and the
    remote binding and nothing else: the current call is cleared, the two
    session flags are false and the remote video element, if mounted, has no
    source; the camera permission, the mute cells, the [Peer], the own and
    the typed identities, the registration flag, the local preview, the
    local stream reference, every stored track, every connection and the
    toasts are as before.  No notice is shown. *)
Theorem remote_close_resets_session_only (role : Role) (s : Page)
    (call : CallRef) (k : MediaConnection) :
  conns s !! call = Some k ->
  conn_listeners k = answered_listeners \/ conn_listeners k = placed_listeners ->
  exec (step role (Signal call Close)) s
  = mkPage (hasCameraPermission s) (isVideoMuted s) (isAudioMuted s) (peer s)
           (peerId s) (remotePeerIdInput s) None (isConnected s) false false
           (localVideoRef s) ((fun _ => mkVideo None) <$> remoteVideoRef s)
           (localStreamRef s) (streams s) (conns s) (toasts s).
Proof.
  intros Hk Hls. unfold exec, step, emit, bind, gets. cbn [fst snd].
  rewrite Hk. clear Hk. open_page s.
  destruct Hls as [-> | ->], remoteVideoRef0; reflexivity.
Qed.

Lemma remote_close_resets_session_only_witness :
  let s := play Doctor [Mount "0.k3j5x9q2wab"; PeerOpen "DR-K3J5X9Q2";
                        Media (Granted 0 camera); TypeRemoteId "PT-ABC12345";
                        ClickCall; Signal 0 (Stream 1)] in
  let k := mkConn "PT-ABC12345" (Some 0) 0 placed_listeners in
  (currentCall s = Some 0 /\ isCallActive s = true /\ hasRemoteStream s = true)
  /\ conns s !! 0 = Some k
  /\ (conn_listeners k = answered_listeners
      \/ conn_listeners k = placed_listeners)
  /\ exec (step Doctor (Signal 0 Close)) s
     = mkPage (hasCameraPermission s) (isVideoMuted s) (isAudioMuted s)
              (peer s) (peerId s) (remotePeerIdInput s) None (isConnected s)
              false false (localVideoRef s)
              ((fun _ => mkVideo None) <$> remoteVideoRef s)
              (localStreamRef s) (streams s) (conns s) (toasts s).
Proof.
  intros s k.
  assert (Hactive : currentCall s = Some 0 /\ isCallActive s = true
                    /\ hasRemoteStream s = true)
    by (vm_compute; repeat split; reflexivity).
  assert (Hk : conns s !! 0 = Some k) by (vm_compute; reflexivity).
  assert (Hls : conn_listeners k = answered_listeners
                \/ conn_listeners k = placed_listeners)
    by (right; vm_compute; reflexivity).
  split; [exact Hactive|]. split; [exact Hk|]. split; [exact Hls|].
  exact (remote_close_resets_session_only Doctor s 0 k Hk Hls).
Defined.

(** Scenario E of the specification, on the patient's page. *)
Example scenario_E :
  let s := play Patient [Mount "0.k3j5x9q2wab"; PeerOpen "PT-K3J5X9Q2";
                         Media (Granted 0 camera); PeerCall "DR-XYZ98765";
                         Signal 0 (Stream 1)] in
  let s' := exec (step Patient (Signal 0 Close)) s in
  idle s' /\ streams s' !! 0 = Some camera /\ localStreamRef s' = Some 0
  /\ isCallActive (exec (step Patient (PeerCall "DR-XYZ98765")) s') = true.
Proof. vm_compute. repeat split; reflexivity. Qed.

(** ** Errors on a connection *)

(** An [error] event on a placed call resets the three session cells and
    shows one notice; registration is untouched. *)
Lemma error_on_placed_call (role : Role) (s : Page) (call : CallRef)
    (k : MediaConnection) :
  conns s !! call = Some k ->
  conn_listeners k = placed_listeners ->
  exec (step role (Signal call Error)) s
  = mkPage (hasCameraPermission s) (isVideoMuted s) (isAudioMuted s) (peer s)
           (peerId s) (remotePeerIdInput s) None (isConnected s) false false
           (localVideoRef s) (remoteVideoRef s) (localStreamRef s) (streams s)
           (conns s) (toasts s ++ [call_failed role]).
Proof.
  intros Hk Hls. unfold exec, step, emit, bind, gets. cbn [fst snd].
  rewrite Hk, Hls. reflexivity.
Qed.

(** An [error] event on an answered call shows one notice and leaves every
    cell, the session cells included, as it was. *)
Lemma error_on_answered_call (role : Role) (s : Page) (call : CallRef)
    (k : MediaConnection) :
  conns s !! call = Some k ->
  conn_listeners k = answered_listeners ->
  exec (step role (Signal call Error)) s
  = mkPage (hasCameraPermission s) (isVideoMuted s) (isAudioMuted s) (peer s)
           (peerId s) (remotePeerIdInput s) (currentCall s) (isConnected s)
           (isCallActive s) (hasRemoteStream s) (localVideoRef s)
           (remoteVideoRef s) (localStreamRef s) (streams s) (conns s)
           (toasts s ++ [call_error]).
Proof.
  intros Hk Hls. unfold exec, step, emit, bind, gets. cbn [fst snd].
  rewrite Hk, Hls. reflexivity.
Qed.

(** C1.  An [error] event on an answered (incoming) call does not return
    the session to idle.  On either page, after an inbound offer from
    ["DR-XYZ98765"] has been answered and its stream received, an [error] on
    that connection leaves the call stored, the session active and the
    remote-stream flag set; only the "Call Error" notice is shown.  The
    registration cells are untouched.  The same event on a placed call
    resets the session. *)
Theorem errored_answered_call_stays_active :
  let incoming_session role :=
    play role [Mount "0.k3j5x9q2wab"; PeerOpen "PT-K3J5X9Q2";
               Media (Granted 0 camera); PeerCall "DR-XYZ98765";
               Signal 0 (Stream 1); Signal 0 Error] in
  let outgoing_session role :=
    play role [Mount "0.k3j5x9q2wab"; PeerOpen "PT-K3J5X9Q2";
               Media (Granted 0 camera); TypeRemoteId "DR-NOTFOUND";
               ClickCall; Signal 0 Error] in
  (forall role,
     currentCall (incoming_session role) = Some 0
     /\ isCallActive (incoming_session role) = true
     /\ hasRemoteStream (incoming_session role) = true
     /\ last (toasts (incoming_session role)) = Some call_error
     /\ isConnected (incoming_session role) = true)
  /\ (forall role,
        idle (outgoing_session role)
        /\ last (toasts (outgoing_session role)) = Some (call_failed role)
        /\ isConnected (outgoing_session role) = true).
Proof.
  split; intros []; vm_compute; repeat split; reflexivity.
Qed.

(** ** Mute toggles *)

Lemma first_track_none (k : TrackKind) (ts : list MediaStreamTrack) :
  (forall t, t ∈ ts -> kind t <> k) -> first_track k ts = None.
Proof.
  intros H. unfold first_track. apply list_find_None.
  apply Forall_forall. exact H.
Qed.

Lemma toggleVideo_lacking (s : Page) :
  lacks_track video s -> toggleVideo s = (tt, s).
Proof.
  intros [Hnone | (st & ts & Hst & Hts & Hk)]; unfold toggleVideo, bind, gets.
  - rewrite Hnone. reflexivity.
  - rewrite Hst, Hts, (first_track_none video ts Hk). reflexivity.
Qed.

Lemma toggleAudio_lacking (s : Page) :
  lacks_track audio s -> toggleAudio s = (tt, s).
Proof.
  intros [Hnone | (st & ts & Hst & Hts & Hk)]; unfold toggleAudio, bind, gets.
  - rewrite Hnone. reflexivity.
  - rewrite Hst, Hts, (first_track_none audio ts Hk). reflexivity.
Qed.

(** C10.  [toggleVideo] without a local stream, or with a stream that has
    no video track, returns and leaves the page exactly as it was: no mute
    cell, no session cell, no registration cell and no track changes.
    Likewise [toggleAudio] for audio tracks.  The same holds for a click on
    the corresponding control. *)
Theorem toggles_without_track (role : Role) (s : Page) :
  (lacks_track video s ->
     toggleVideo s = (tt, s) /\ exec (step role ClickVideo) s = s)
  /\ (lacks_track audio s ->
        toggleAudio s = (tt, s) /\ exec (step role ClickAudio) s = s).
Proof.
  split; intros H.
  - assert (Ht : toggleVideo s = (tt, s)) by apply (toggleVideo_lacking s H).
    split; [exact Ht|].
    unfold exec, step, click, when, bind, gets.
    destruct (toggleButton_enabled s); [rewrite Ht|]; reflexivity.
  - assert (Ht : toggleAudio s = (tt, s)) by apply (toggleAudio_lacking s H).
    split; [exact Ht|].
    unfold exec, step, click, when, bind, gets.
    destruct (toggleButton_enabled s); [rewrite Ht|]; reflexivity.
Qed.

Lemma toggles_without_track_witness :
  let no_stream := play Patient [Mount "0.k3j5x9q2wab"; Media Denied] in
  let audio_only :=
    play Patient [Mount "0.k3j5x9q2wab";
                  Media (Granted 0 [mkTrack audio true live])] in
  lacks_track audio no_stream
  /\ lacks_track video audio_only
  /\ (toggleAudio no_stream = (tt, no_stream)
      /\ exec (step Patient ClickAudio) no_stream = no_stream)
  /\ (toggleVideo audio_only = (tt, audio_only)
      /\ exec (step Patient ClickVideo) audio_only = audio_only).
Proof.
  intros no_stream audio_only.
  assert (H1 : lacks_track audio no_stream)
    by (left; vm_compute; reflexivity).
  assert (H2 : lacks_track video audio_only).
  { right. exists 0, [mkTrack audio true live].
    split; [vm_compute; reflexivity|]. split; [vm_compute; reflexivity|].
    intros t Ht. apply list_elem_of_singleton in Ht. subst t. discriminate. }
  split; [exact H1|]. split; [exact H2|]. split.
  - exact (proj2 (toggles_without_track Patient no_stream) H1).
  - exact (proj1 (toggles_without_track Patient audio_only) H2).
Defined.

(** ** Starting a call *)

Lemma truthy_spec (v : string) : truthy v = true <-> v <> "".
Proof.
  unfold truthy. rewrite negb_true_iff. split.
  - intros H ->. discriminate H.
  - intros H. apply String.eqb_neq. exact H.
Qed.

(** [makeCall] when its guard passes: the offer is placed towards the typed
    identity with the local stream, the new connection becomes the current
    call, the session is marked active and the "Calling" notice is shown.
    No other cell is read: neither [isConnected] nor [isCallActive]. *)
Lemma makeCall_places_offer (role : Role) (s : Page) (st : StreamRef) :
  is_Some (peer s) ->
  remotePeerIdInput s <> "" ->
  localStreamRef s = Some st ->
  exec (makeCall role) s
  = mkPage (hasCameraPermission s) (isVideoMuted s) (isAudioMuted s) (peer s)
           (peerId s) (remotePeerIdInput s) (Some (length (conns s)))
           (isConnected s) true (hasRemoteStream s) (localVideoRef s)
           (remoteVideoRef s) (localStreamRef s) (streams s)
           (conns s
            ++ [mkConn (remotePeerIdInput s) (Some st) 0 placed_listeners])
           (toasts s ++ [calling role (remotePeerIdInput s)]).
Proof.
  intros [p Hp] Hrid%truthy_spec Hst.
  open_page s. subst. unfold exec, makeCall, bind, gets. page_cells.
  rewrite Hrid. run_handler. rewrite !alter_new. reflexivity.
Qed.

(** [makeCall] when its guard fails: one notice and nothing else. *)
Lemma makeCall_refuses (role : Role) (s : Page) :
  peer s = None \/ remotePeerIdInput s = "" \/ localStreamRef s = None ->
  exec (makeCall role) s
  = mkPage (hasCameraPermission s) (isVideoMuted s) (isAudioMuted s) (peer s)
           (peerId s) (remotePeerIdInput s) (currentCall s) (isConnected s)
           (isCallActive s) (hasRemoteStream s) (localVideoRef s)
           (remoteVideoRef s) (localStreamRef s) (streams s) (conns s)
           (toasts s ++ [cannot_make_call role]).
Proof.
  intros H. open_page s. unfold exec, makeCall, bind, gets. page_cells.
  destruct H as [H | [H | H]]; subst.
  - reflexivity.
  - destruct peer0; reflexivity.
  - destruct peer0, (truthy remotePeerIdInput0); reflexivity.
Qed.

(** A click on the call control does nothing while the control is disabled
    or not rendered. *)
Lemma call_control_gated (role : Role) (s : Page) :
  isConnected s = false \/ remotePeerIdInput s = "" \/ isCallActive s = true ->
  exec (step role ClickCall) s = s.
Proof.
  intros H. unfold exec, step, click, when, bind, gets, callButton_enabled.
  destruct H as [H | [H | H]]; rewrite H; cbn;
    rewrite ?andb_false_r, ?orb_true_r; cbn; rewrite ?andb_false_r;
    reflexivity.
Qed.


(** C5 as stated fails: on a page whose [Peer] is built but whose
    registration has not opened yet, with the camera granted and a remote
    identity typed, [makeCall] places the offer and marks the session
    active. *)
Lemma makeCall_before_registration_opens :
  let evs := [Mount "0.k3j5x9q2wab"; Media (Granted 0 camera);
              TypeRemoteId "DR-XYZ98765"] in
  let s := play Patient evs in
  let s' := exec (makeCall Patient) s in
  run Patient evs initialPage = Some s
  /\ isConnected s = false
  /\ idle s
  /\ isCallActive s' = true
  /\ currentCall s' = Some 0
  /\ conns s' = [mkConn "DR-XYZ98765" (Some 0) 0 placed_listeners]
  /\ last (toasts s') = Some (calling Patient "DR-XYZ98765").
Proof. vm_compute. repeat split; reflexivity. Qed.

(** C5, amended.  [makeCall] places the offer exactly when the [Peer]
    object exists, the typed remote identity is non-empty and the local
    stream is present; if one of the three is missing it shows the "Cannot
    Make Call" notice and changes nothing else.  Whether the registration is
    open is not looked at by [makeCall]: it is the call control that is
    disabled while [isConnected] is false or the identity is empty, and not
    rendered while a call is active, and a click on it then does nothing and
    shows no notice. *)
Theorem makeCall_guard (role : Role) (s : Page) :
  let s' := exec (makeCall role) s in
  (peer s = None \/ remotePeerIdInput s = "" \/ localStreamRef s = None ->
     s' = mkPage (hasCameraPermission s) (isVideoMuted s) (isAudioMuted s)
                 (peer s) (peerId s) (remotePeerIdInput s) (currentCall s)
                 (isConnected s) (isCallActive s) (hasRemoteStream s)
                 (localVideoRef s) (remoteVideoRef s) (localStreamRef s)
                 (streams s) (conns s)
                 (toasts s ++ [cannot_make_call role]))
  /\ (is_Some (peer s) -> remotePeerIdInput s <> "" ->
      is_Some (localStreamRef s) ->
        currentCall s' = Some (length (conns s))
        /\ isCallActive s' = true
        /\ conns s' = conns s ++ [mkConn (remotePeerIdInput s) (localStreamRef s)
                                         0 placed_listeners]
        /\ toasts s' = toasts s ++ [calling role (remotePeerIdInput s)])
  /\ (isConnected s = false \/ remotePeerIdInput s = ""
      \/ isCallActive s = true ->
        exec (step role ClickCall) s = s).
Proof.
  intros s'. split; [|split].
  - apply makeCall_refuses.
  - intros Hp Hrid [st Hst]. subst s'.
    rewrite (makeCall_places_offer role s st Hp Hrid Hst), Hst.
    repeat split; reflexivity.
  - apply call_control_gated.
Qed.

Lemma makeCall_guard_witness :
  let no_camera := play Doctor [Mount "0.k3j5x9q2wab"; PeerOpen "DR-K3J5X9Q2";
                                Media Denied; TypeRemoteId "PT-ABC12345"] in
  let ready := play Doctor [Mount "0.k3j5x9q2wab"; PeerOpen "DR-K3J5X9Q2";
                            Media (Granted 0 camera);
                            TypeRemoteId "PT-ABC12345"] in
  let connecting := play Doctor [Mount "0.k3j5x9q2wab";
                                 Media (Granted 0 camera);
                                 TypeRemoteId "PT-ABC12345"] in
  ((peer no_camera = None \/ remotePeerIdInput no_camera = ""
    \/ localStreamRef no_camera = None)
   /\ exec (makeCall Doctor) no_camera
      = mkPage (hasCameraPermission no_camera) (isVideoMuted no_camera)
               (isAudioMuted no_camera) (peer no_camera) (peerId no_camera)
               (remotePeerIdInput no_camera) (currentCall no_camera)
               (isConnected no_camera) (isCallActive no_camera)
               (hasRemoteStream no_camera) (localVideoRef no_camera)
               (remoteVideoRef no_camera) (localStreamRef no_camera)
               (streams no_camera) (conns no_camera)
               (toasts no_camera ++ [cannot_make_call Doctor]))
  /\ (is_Some (peer ready) /\ remotePeerIdInput ready <> ""
      /\ is_Some (localStreamRef ready)
      /\ (let s' := exec (makeCall Doctor) ready in
          currentCall s' = Some (length (conns ready))
          /\ isCallActive s' = true
          /\ conns s' = conns ready
                        ++ [mkConn (remotePeerIdInput ready)
                                   (localStreamRef ready) 0 placed_listeners]
          /\ toasts s' = toasts ready
                         ++ [calling Doctor (remotePeerIdInput ready)]))
  /\ ((isConnected connecting = false \/ remotePeerIdInput connecting = ""
       \/ isCallActive connecting = true)
      /\ exec (step Doctor ClickCall) connecting = connecting).
Proof.
  intros no_camera ready connecting.
  assert (H1 : peer no_camera = None \/ remotePeerIdInput no_camera = ""
               \/ localStreamRef no_camera = None)
    by (right; right; vm_compute; reflexivity).
  assert (Hp : is_Some (peer ready)) by (vm_compute; eexists; reflexivity).
  assert (Hr : remotePeerIdInput ready <> "") by (vm_compute; discriminate).
  assert (Hs : is_Some (localStreamRef ready))
    by (vm_compute; eexists; reflexivity).
  assert (H3 : isConnected connecting = false
               \/ remotePeerIdInput connecting = ""
               \/ isCallActive connecting = true)
    by (left; vm_compute; reflexivity).
  split; [|split].
  - split; [exact H1|].
    exact (proj1 (makeCall_guard Doctor no_camera) H1).
  - split; [exact Hp|]. split; [exact Hr|]. split; [exact Hs|].
    exact (proj1 (proj2 (makeCall_guard Doctor ready)) Hp Hr Hs).
  - split; [exact H3|].
    exact (proj2 (proj2 (makeCall_guard Doctor connecting)) H3).
Defined.

(** Scenario D of the specification: an offer to an identity the relay does
    not know, then the [error] event. *)
Example scenario_D :
  let s := play Patient [Mount "0.k3j5x9q2wab"; PeerOpen "PT-K3J5X9Q2";
                         Media (Granted 0 camera); TypeRemoteId "DR-NOTFOUND";
                         ClickCall] in
  let s' := exec (step Patient (Signal 0 Error)) s in
  isCallActive s = true /\ hasRemoteStream s = false
  /\ idle s' /\ last (toasts s') = Some (call_failed Patient)
  /\ isConnected s' = true /\ peerId s' = "PT-K3J5X9Q2".
Proof. vm_compute. repeat split; reflexivity. Qed.

(** ** One call at a time *)

(** C2 as stated fails: during an active answered call with ["DR-AAAA1111"],
    a second inbound offer, from ["DR-BBBB2222"], is answered too; its
    connection replaces the stored one, and the first connection is neither
    closed nor told anything.  [makeCall], invoked in the same state,
    likewise replaces the stored connection. *)
Lemma second_session_replaces_current_call :
  let evs := [Mount "0.k3j5x9q2wab"; PeerOpen "PT-K3J5X9Q2";
              Media (Granted 0 camera); TypeRemoteId "DR-CCCC3333";
              PeerCall "DR-AAAA1111"; Signal 0 (Stream 1)] in
  let s := play Patient evs in
  let s' := exec (step Patient (PeerCall "DR-BBBB2222")) s in
  let s'' := exec (makeCall Patient) s in
  run Patient evs initialPage = Some s
  /\ (isCallActive s = true /\ currentCall s = Some 0
   /\ conn_peer <$> conns s !! 0 = Some "DR-AAAA1111")
  /\ (currentCall s' = Some 1
      /\ conns s' !! 1
         = Some (mkConn "DR-BBBB2222" (Some 0) 0 answered_listeners)
      /\ conns s' !! 0
         = Some (mkConn "DR-AAAA1111" (Some 0) 0 answered_listeners))
  /\ (currentCall s'' = Some 1
      /\ conns s'' !! 1
         = Some (mkConn "DR-CCCC3333" (Some 0) 0 placed_listeners)).
Proof. vm_compute. repeat split; reflexivity. Qed.

(** C2, amended.  The page has one slot for a call.  The call control is
    not rendered while [isCallActive] holds, so a click cannot start
    [makeCall] during an active call; [makeCall] itself does not look at
    [isCallActive] and, when its own guard passes, stores the new
    connection.  An inbound offer that finds the local stream is answered
    in every state, an active call included: the new connection takes the
    slot, and the connections that existed before are left as they were. *)
Theorem single_call_slot (role : Role) (s : Page) :
  (isCallActive s = true -> exec (step role ClickCall) s = s)
  /\ (forall from st, localStreamRef s = Some st ->
        let s' := exec (step role (PeerCall from)) s in
        currentCall s' = Some (length (conns s))
        /\ isCallActive s' = true
        /\ conns s' = conns s ++ [mkConn from (Some st) 0 answered_listeners])
  /\ (forall st, is_Some (peer s) -> remotePeerIdInput s <> "" ->
        localStreamRef s = Some st ->
        let s' := exec (makeCall role) s in
        currentCall s' = Some (length (conns s))
        /\ isCallActive s' = true
        /\ conns s' = conns s ++ [mkConn (remotePeerIdInput s) (Some st) 0
                                         placed_listeners]).
Proof.
  split; [|split].
  - intros H. apply call_control_gated. right. right. exact H.
  - intros from st Hst s'. subst s'.
    rewrite (on_call_answers role s from st Hst).
    repeat split; reflexivity.
  - intros st Hp Hrid Hst s'. subst s'.
    rewrite (makeCall_places_offer role s st Hp Hrid Hst).
    repeat split; reflexivity.
Qed.

Lemma single_call_slot_witness :
  let s := play Patient [Mount "0.k3j5x9q2wab"; PeerOpen "PT-K3J5X9Q2";
                         Media (Granted 0 camera); TypeRemoteId "DR-CCCC3333";
                         PeerCall "DR-AAAA1111"] in
  isCallActive s = true
  /\ localStreamRef s = Some 0
  /\ is_Some (peer s)
  /\ remotePeerIdInput s <> ""
  /\ exec (step Patient ClickCall) s = s
  /\ (let s' := exec (step Patient (PeerCall "DR-BBBB2222")) s in
      currentCall s' = Some (length (conns s))
      /\ isCallActive s' = true
      /\ conns s' = conns s ++ [mkConn "DR-BBBB2222" (Some 0) 0
                                       answered_listeners])
  /\ (let s' := exec (makeCall Patient) s in
      currentCall s' = Some (length (conns s))
      /\ isCallActive s' = true
      /\ conns s' = conns s ++ [mkConn (remotePeerIdInput s) (Some 0) 0
                                       placed_listeners]).
Proof.
  intros s.
  assert (Ha : isCallActive s = true) by (vm_compute; reflexivity).
  assert (Hst : localStreamRef s = Some 0) by (vm_compute; reflexivity).
  assert (Hp : is_Some (peer s)) by (vm_compute; eexists; reflexivity).
  assert (Hr : remotePeerIdInput s <> "") by (vm_compute; discriminate).
  split; [exact Ha|]. split; [exact Hst|]. split; [exact Hp|].
  split; [exact Hr|]. split; [|split].
  - exact (proj1 (single_call_slot Patient s) Ha).
  - exact (proj1 (proj2 (single_call_slot Patient s)) "DR-BBBB2222" 0 Hst).
  - exact (proj2 (proj2 (single_call_slot Patient s)) 0 Hp Hr Hst).
Defined.

(** ** Ending a call *)

(** [endCall] with a stored call: one [close()] on that connection, the
    session cells and the remote binding reset, one notice. *)
Lemma endCall_with_call (s : Page) (call : CallRef) :
  currentCall s = Some call ->
  exec endCall s
  = mkPage (hasCameraPermission s) (isVideoMuted s) (isAudioMuted s) (peer s)
           (peerId s) (remotePeerIdInput s) None (isConnected s) false false
           (localVideoRef s) ((fun _ => mkVideo None) <$> remoteVideoRef s)
           (localStreamRef s) (streams s) (alter closed_once call (conns s))
           (toasts s ++ [call_ended]).
Proof.
  intros H. open_page s. subst.
  destruct remoteVideoRef0; reflexivity.
Qed.

(** [endCall] without a stored call does nothing at all. *)
Lemma endCall_without_call (s : Page) :
  currentCall s = None -> endCall s = (tt, s).
Proof. intros H. unfold endCall, bind, gets. rewrite H. reflexivity. Qed.

Lemma endCall_clears_call (s : Page) : currentCall (exec endCall s) = None.
Proof.
  destruct (currentCall s) as [call|] eqn:H.
  - rewrite (endCall_with_call s call H). reflexivity.
  - unfold exec. rewrite (endCall_without_call s H). exact H.
Qed.

Lemma endCall_again (s : Page) (n : nat) :
  Nat.iter n (exec endCall) (exec endCall s) = exec endCall s.
Proof.
  induction n as [|n IH]; [reflexivity|].
  rewrite Nat.iter_succ, IH. unfold exec at 1.
  rewrite (endCall_without_call _ (endCall_clears_call s)). reflexivity.
Qed.

(** C7 as stated fails on a page the event loop can produce.  Two inbound
    offers are answered one after the other, the first connection then
    closes (which clears the slot although the second call is alive) and
    the second connection delivers its stream.  No call is stored but the
    remote-stream flag is set; [endCall], once or twice, does nothing, so
    the session is not idle afterwards. *)
Lemma endCall_leaves_orphaned_stream :
  let evs := [Mount "0.k3j5x9q2wab"; PeerOpen "PT-K3J5X9Q2";
              Media (Granted 0 camera); PeerCall "DR-AAAA1111";
              PeerCall "DR-BBBB2222"; Signal 0 Close; Signal 1 (Stream 2)] in
  let s := play Patient evs in
  run Patient evs initialPage = Some s
  /\ currentCall s = None
  /\ hasRemoteStream s = true
  /\ exec endCall (exec endCall s) = s
  /\ hasRemoteStream (exec endCall (exec endCall s)) = true.
Proof. vm_compute. repeat split; reflexivity. Qed.

(** C7, amended.  After one [endCall] every further [endCall] leaves the
    page exactly as it is, from any state: no second [close()], no second
    notice, no track touched.  The first [endCall] clears the stored call
    and touches no track; if a call was stored it closes that connection
    once, resets the session cells to idle, unbinds the remote video and
    shows one notice; if no call was stored it does nothing, so the session
    cells keep whatever values they had. *)
Theorem endCall_idempotent (s : Page) :
  let s1 := exec endCall s in
  (forall n, Nat.iter n (exec endCall) s1 = s1)
  /\ currentCall s1 = None
  /\ streams s1 = streams s
  /\ (forall call, currentCall s = Some call ->
        idle s1
        /\ remoteVideoRef s1 = (fun _ => mkVideo None) <$> remoteVideoRef s
        /\ conns s1 = alter closed_once call (conns s)
        /\ toasts s1 = toasts s ++ [call_ended])
  /\ (currentCall s = None -> s1 = s).
Proof.
  intros s1. subst s1. split; [|split; [|split; [|split]]].
  - intros n. apply endCall_again.
  - apply endCall_clears_call.
  - destruct (currentCall s) as [call|] eqn:H.
    + rewrite (endCall_with_call s call H). reflexivity.
    + unfold exec. rewrite (endCall_without_call s H). reflexivity.
  - intros call H. rewrite (endCall_with_call s call H).
    repeat split; reflexivity.
  - intros H. unfold exec. rewrite (endCall_without_call s H). reflexivity.
Qed.

Lemma endCall_idempotent_witness :
  let s := play Patient [Mount "0.k3j5x9q2wab"; PeerOpen "PT-K3J5X9Q2";
                         Media (Granted 0 camera); PeerCall "DR-XYZ98765";
                         Signal 0 (Stream 1)] in
  let s1 := exec endCall s in
  currentCall s = Some 0
  /\ (forall n, Nat.iter n (exec endCall) s1 = s1)
  /\ (idle s1
      /\ remoteVideoRef s1 = (fun _ => mkVideo None) <$> remoteVideoRef s
      /\ conns s1 = alter closed_once 0 (conns s)
      /\ toasts s1 = toasts s ++ [call_ended]).
Proof.
  intros s s1.
  assert (H0 : currentCall s = Some 0) by (vm_compute; reflexivity).
  split; [exact H0|]. split.
  - exact (proj1 (endCall_idempotent s)).
  - exact (proj1 (proj2 (proj2 (proj2 (endCall_idempotent s)))) 0 H0).
Defined.

(** ** The mute cells follow the tracks *)

Lemma flip_enabled_twice (t : MediaStreamTrack) :
  flip_enabled (flip_enabled t) = t.
Proof.
  destruct t as [k e r]. unfold flip_enabled. cbn.
  rewrite negb_involutive. reflexivity.
Qed.

Lemma first_track_lookup (k : TrackKind) (ts : list MediaStreamTrack)
    (i : nat) (t : MediaStreamTrack) :
  first_track k ts = Some (i, t) -> ts !! i = Some t /\ kind t = k.
Proof.
  unfold first_track. intros (H1 & H2 & _)%list_find_Some. split; assumption.
Qed.

(** Writing the flipped track back keeps it the first of its kind. *)
Lemma first_track_flipped (k : TrackKind) (ts : list MediaStreamTrack)
    (i : nat) (t : MediaStreamTrack) :
  first_track k ts = Some (i, t) ->
  first_track k (<[i := flip_enabled t]> ts) = Some (i, flip_enabled t).
Proof.
  unfold first_track. revert i.
  induction ts as [|x ts IH]; intros i H; [discriminate H|].
  cbn in H. destruct (decide (kind x = k)) as [Hx|Hx].
  - injection H as <- <-. cbn. rewrite decide_True by exact Hx. reflexivity.
  - destruct (list_find (fun t0 => kind t0 = k) ts) as [[j u]|] eqn:Hf;
      [|discriminate H].
    cbn in H. injection H as <- <-. cbn.
    rewrite decide_False by exact Hx.
    transitivity (prod_map S id <$> Some (j, flip_enabled u));
      [f_equal; exact (IH j eq_refl) | reflexivity].
Qed.

(** ... and does not change which track is the first of another kind. *)
Lemma first_track_other (k k' : TrackKind) (ts : list MediaStreamTrack)
    (i : nat) (t : MediaStreamTrack) :
  k <> k' ->
  first_track k ts = Some (i, t) ->
  first_track k' (<[i := flip_enabled t]> ts) = first_track k' ts.
Proof.
  unfold first_track. intros Hne. revert i.
  induction ts as [|x ts IH]; intros i H; [discriminate H|].
  cbn in H. destruct (decide (kind x = k)) as [Hx|Hx].
  - injection H as <- <-. cbn.
    rewrite !decide_False by (rewrite Hx; exact Hne). reflexivity.
  - destruct (list_find (fun t0 => kind t0 = k) ts) as [[j u]|] eqn:Hf;
      [|discriminate H].
    cbn in H. injection H as <- <-. cbn.
    destruct (decide (kind x = k')); [reflexivity|].
    f_equal. exact (IH j eq_refl).
Qed.

(** One toggle on a stream that has a track of the kind. *)
Lemma toggleVideo_flips (s : Page) (st : StreamRef)
    (ts : list MediaStreamTrack) (i : nat) (t : MediaStreamTrack) :
  localStreamRef s = Some st ->
  streams s !! st = Some ts ->
  first_track video ts = Some (i, t) ->
  exec toggleVideo s
  = mkPage (hasCameraPermission s) (enabled t) (isAudioMuted s) (peer s)
           (peerId s) (remotePeerIdInput s) (currentCall s) (isConnected s)
           (isCallActive s) (hasRemoteStream s) (localVideoRef s)
           (remoteVideoRef s) (localStreamRef s)
           (<[st := <[i := flip_enabled t]> ts]> (streams s)) (conns s)
           (toasts s).
Proof.
  intros Hst Hts Hf. open_page s. subst.
  unfold exec, toggleVideo, bind, gets. page_cells.
  rewrite Hts, Hf. run_handler. cbn [flip_enabled enabled].
  rewrite negb_involutive. reflexivity.
Qed.

Lemma toggleAudio_flips (s : Page) (st : StreamRef)
    (ts : list MediaStreamTrack) (i : nat) (t : MediaStreamTrack) :
  localStreamRef s = Some st ->
  streams s !! st = Some ts ->
  first_track audio ts = Some (i, t) ->
  exec toggleAudio s
  = mkPage (hasCameraPermission s) (isVideoMuted s) (enabled t) (peer s)
           (peerId s) (remotePeerIdInput s) (currentCall s) (isConnected s)
           (isCallActive s) (hasRemoteStream s) (localVideoRef s)
           (remoteVideoRef s) (localStreamRef s)
           (<[st := <[i := flip_enabled t]> ts]> (streams s)) (conns s)
           (toasts s).
Proof.
  intros Hst Hts Hf. open_page s. subst.
  unfold exec, toggleAudio, bind, gets. page_cells.
  rewrite Hts, Hf. run_handler. cbn [flip_enabled enabled].
  rewrite negb_involutive. reflexivity.
Qed.

Lemma media_inv_ext (s s' : Page) :
  media s' = media s -> media_inv s -> media_inv s'.
Proof.
  unfold media, media_inv. intros H. injection H as -> -> -> -> ->. auto.
Qed.

(** The session handlers leave the media cells alone. *)
Lemma run_closure_media (role : Role) (c : Closure) (e : CallEvent) (s : Page) :
  media (exec (run_closure role c e) s) = media s.
Proof.
  open_page s. destruct c, e, remoteVideoRef0; reflexivity.
Qed.

Lemma run_listeners_media (role : Role) (ls : list (CallEventName * Closure))
    (e : CallEvent) (s : Page) :
  media (exec (run_listeners role ls e) s) = media s.
Proof.
  revert s. induction ls as [|[n c] ls IH]; intros s; [reflexivity|].
  unfold exec in *. cbn [run_listeners]. unfold bind, when.
  destruct (bool_decide (n = event_name e)).
  - pose proof (run_closure_media role c e s) as Hc. unfold exec in Hc.
    destruct (run_closure role c e s) as [u s']. cbn [snd] in Hc.
    rewrite IH. exact Hc.
  - cbn. apply IH.
Qed.

Lemma on_call_media (role : Role) (from : string) (s : Page) :
  media (exec (step role (PeerCall from)) s) = media s.
Proof.
  open_page s. destruct localStreamRef0, role; reflexivity.
Qed.

Lemma makeCall_media (role : Role) (s : Page) :
  media (exec (makeCall role) s) = media s.
Proof.
  open_page s. unfold exec, makeCall, bind, gets. page_cells.
  destruct peer0, (truthy remotePeerIdInput0), localStreamRef0; reflexivity.
Qed.

Lemma endCall_media (s : Page) : media (exec endCall s) = media s.
Proof.
  destruct (currentCall s) as [call|] eqn:H.
  - rewrite (endCall_with_call s call H). reflexivity.
  - unfold exec. rewrite (endCall_without_call s H). reflexivity.
Qed.

Lemma fresh_in_sync (k : TrackKind) (ts : list MediaStreamTrack) :
  forallb fresh_track ts = true -> in_sync k false ts.
Proof.
  intros H i t [Hi _]%first_track_lookup.
  rewrite forallb_forall in H.
  assert (Hin : In t ts).
  { apply list_elem_of_In. apply list_elem_of_lookup. eauto. }
  apply H in Hin. unfold fresh_track in Hin.
  apply andb_true_iff in Hin as [-> _]. reflexivity.
Qed.

Lemma toggle_inv (s : Page) :
  media_inv s -> media_inv (exec toggleVideo s) /\ media_inv (exec toggleAudio s).
Proof.
  intros Hinv. unfold media_inv in Hinv.
  destruct (localStreamRef s) as [st|] eqn:Hst.
  - destruct Hinv as (Hperm & ts & Hts & Hv & Ha).
    split.
    + destruct (first_track video ts) as [[i t]|] eqn:Hf.
      * rewrite (toggleVideo_flips s st ts i t Hst Hts Hf).
        unfold media_inv. cbn. rewrite Hst. split; [exact Hperm|].
        exists (<[i := flip_enabled t]> ts).
        split; [apply lookup_insert_eq|]. split.
        -- intros j u Hj. rewrite (first_track_flipped _ _ _ _ Hf) in Hj.
           injection Hj as <- <-. cbn. rewrite negb_involutive. reflexivity.
        -- intros j u Hj.
           rewrite (first_track_other video audio ts i t) in Hj
             by (discriminate || exact Hf).
           exact (Ha j u Hj).
      * unfold exec, toggleVideo, bind, gets.
        rewrite Hst, Hts, Hf. cbn. unfold media_inv. rewrite Hst. eauto.
    + destruct (first_track audio ts) as [[i t]|] eqn:Hf.
      * rewrite (toggleAudio_flips s st ts i t Hst Hts Hf).
        unfold media_inv. cbn. rewrite Hst. split; [exact Hperm|].
        exists (<[i := flip_enabled t]> ts).
        split; [apply lookup_insert_eq|]. split.
        -- intros j u Hj.
           rewrite (first_track_other audio video ts i t) in Hj
             by (discriminate || exact Hf).
           exact (Hv j u Hj).
        -- intros j u Hj. rewrite (first_track_flipped _ _ _ _ Hf) in Hj.
           injection Hj as <- <-. cbn. rewrite negb_involutive. reflexivity.
      * unfold exec, toggleAudio, bind, gets.
        rewrite Hst, Hts, Hf. cbn. unfold media_inv. rewrite Hst. eauto.
  - split; unfold exec, toggleVideo, toggleAudio, bind, gets;
      rewrite Hst; cbn; unfold media_inv; rewrite Hst; exact Hinv.
Qed.

(** The invariant holds on every page the event loop can produce. *)
Lemma reachable_media_inv (role : Role) (s : Page) :
  reachable role s -> media_inv s.
Proof.
  induction 1 as [|s ev Hreach IH Hadm].
  - split; reflexivity.
  - destruct ev as [rnd|id|from|message|o|call e|v| | | | ].
    + apply (media_inv_ext s); [reflexivity|exact IH].
    + apply (media_inv_ext s); [reflexivity|exact IH].
    + apply (media_inv_ext s); [apply on_call_media|exact IH].
    + apply (media_inv_ext s); [reflexivity|exact IH].
    + cbn in Hadm. apply andb_true_iff in Hadm as [Hperm Ho].
      apply bool_decide_eq_true in Hperm.
      unfold media_inv in IH.
      destruct (localStreamRef s) as [st|] eqn:Hst;
        [destruct IH as [IH _]; congruence|].
      destruct IH as [Hv Ha].
      destruct o as [|stream ts|].
      * unfold media_inv. cbn. rewrite Hst. split; assumption.
      * apply andb_true_iff in Ho as [_ Hfresh].
        clear Hreach Hperm. open_page s. subst.
        destruct localVideoRef0; unfold media_inv; cbn;
          (split; [reflexivity|]); exists ts;
          (split; [apply lookup_insert_eq|]);
          split; apply fresh_in_sync; exact Hfresh.
      * unfold media_inv. cbn. rewrite Hst. split; assumption.
    + apply (media_inv_ext s); [|exact IH].
      unfold exec, step, emit, bind, gets. cbn [fst snd].
      destruct (conns s !! call) as [k|]; [|reflexivity].
      apply run_listeners_media.
    + apply (media_inv_ext s); [reflexivity|exact IH].
    + apply (media_inv_ext s); [|exact IH].
      unfold exec, step, click, when, bind, gets. cbn [fst snd].
      destruct (callButton_enabled s); [apply makeCall_media|reflexivity].
    + apply (media_inv_ext s); [|exact IH].
      unfold exec, step, click, when, bind, gets. cbn [fst snd].
      destruct (endButton_enabled s); [apply endCall_media|reflexivity].
    + unfold exec, step, click, when, bind, gets. cbn [fst snd].
      destruct (toggleButton_enabled s); [|exact IH].
      apply (proj1 (toggle_inv s IH)).
    + unfold exec, step, click, when, bind, gets. cbn [fst snd].
      destruct (toggleButton_enabled s); [|exact IH].
      apply (proj2 (toggle_inv s IH)).
Qed.

Lemma run_reachable (role : Role) (evs : list Event) (s s' : Page) :
  reachable role s -> run role evs s = Some s' -> reachable role s'.
Proof.
  revert s. induction evs as [|ev evs IH]; intros s Hs H; cbn in H.
  - injection H as <-. exact Hs.
  - destruct (admissible s ev) eqn:Hadm; [|discriminate H].
    apply (IH _ (reachable_step role s ev Hs Hadm) H).
Qed.

(** C8.  On every page the event loop can produce whose local stream has a
    video track, one [toggleVideo] flips the track's [enabled] flag in place
    and flips the video-muted cell, and a second one brings the page back
    to exactly what it was: the flag and the cell have their original
    values, and [localStreamRef] holds the same stream object, with the same
    tracks, as before. *)
Theorem toggleVideo_twice (role : Role) (s : Page) (st : StreamRef)
    (ts : list MediaStreamTrack) (i : nat) (t : MediaStreamTrack) :
  reachable role s ->
  localStreamRef s = Some st ->
  streams s !! st = Some ts ->
  first_track video ts = Some (i, t) ->
  let s1 := exec toggleVideo s in
  let s2 := exec toggleVideo s1 in
  (localStreamRef s1 = Some st
   /\ (enabled <$> (snd <$> (streams s1 !! st ≫= first_track video)))
      = Some (negb (enabled t))
   /\ isVideoMuted s1 = negb (isVideoMuted s))
  /\ (localStreamRef s2 = Some st
      /\ streams s2 !! st ≫= first_track video = Some (i, t)
      /\ isVideoMuted s2 = isVideoMuted s)
  /\ s2 = s.
Proof.
  intros Hreach Hst Hts Hf s1 s2.
  pose proof (reachable_media_inv role s Hreach) as Hinv.
  unfold media_inv in Hinv. rewrite Hst in Hinv.
  destruct Hinv as (_ & ts' & Hts' & Hsync & _).
  assert (ts' = ts) by congruence. subst ts'.
  pose proof (Hsync i t Hf) as Hmuted.
  pose proof (first_track_flipped video ts i t Hf) as Hf1.
  destruct (first_track_lookup video ts i t Hf) as [Hi _].
  assert (H1 : s1 = mkPage (hasCameraPermission s) (enabled t) (isAudioMuted s)
                 (peer s) (peerId s) (remotePeerIdInput s) (currentCall s)
                 (isConnected s) (isCallActive s) (hasRemoteStream s)
                 (localVideoRef s) (remoteVideoRef s) (localStreamRef s)
                 (<[st := <[i := flip_enabled t]> ts]> (streams s)) (conns s)
                 (toasts s))
    by apply (toggleVideo_flips s st ts i t Hst Hts Hf).
  assert (Hst1 : localStreamRef s1 = Some st) by (rewrite H1; exact Hst).
  assert (Hts1 : streams s1 !! st = Some (<[i := flip_enabled t]> ts))
    by (rewrite H1; apply lookup_insert_eq).
  assert (H2 : s2 = s).
  { subst s2. rewrite (toggleVideo_flips s1 st _ i _ Hst1 Hts1 Hf1).
    rewrite flip_enabled_twice, list_insert_insert_eq, (list_insert_id ts i t Hi).
    rewrite H1. cbn [hasCameraPermission isAudioMuted peer peerId
      remotePeerIdInput currentCall isConnected isCallActive hasRemoteStream
      localVideoRef remoteVideoRef localStreamRef streams conns toasts].
    rewrite insert_insert_eq, (insert_id (streams s) st ts Hts).
    cbn [flip_enabled enabled]. rewrite <- Hmuted.
    destruct s; reflexivity. }
  split; [|split].
  - split; [exact Hst1|]. split.
    + rewrite Hts1. cbn. rewrite Hf1. reflexivity.
    + rewrite H1. cbn. rewrite Hmuted, negb_involutive. reflexivity.
  - rewrite H2. split; [exact Hst|]. split; [|reflexivity].
    rewrite Hts. exact Hf.
  - exact H2.
Qed.

Lemma toggleVideo_twice_witness :
  let evs := [Mount "0.k3j5x9q2wab"; PeerOpen "PT-K3J5X9Q2";
              Media (Granted 0 camera); ClickVideo; ClickAudio;
              PeerCall "DR-XYZ98765"] in
  let s := play Patient evs in
  let ts := [mkTrack video false live; mkTrack audio false live] in
  let t := mkTrack video false live in
  reachable Patient s
  /\ localStreamRef s = Some 0
  /\ streams s !! 0 = Some ts
  /\ first_track video ts = Some (0, t)
  /\ (let s1 := exec toggleVideo s in
      let s2 := exec toggleVideo s1 in
      (localStreamRef s1 = Some 0
       /\ (enabled <$> (snd <$> (streams s1 !! 0 ≫= first_track video)))
          = Some (negb (enabled t))
       /\ isVideoMuted s1 = negb (isVideoMuted s))
      /\ (localStreamRef s2 = Some 0
          /\ streams s2 !! 0 ≫= first_track video = Some (0, t)
          /\ isVideoMuted s2 = isVideoMuted s)
      /\ s2 = s).
Proof.
  intros evs s ts t.
  assert (Hr : reachable Patient s).
  { apply (run_reachable Patient evs initialPage);
      [apply reachable_initial | vm_compute; reflexivity]. }
  assert (Hst : localStreamRef s = Some 0) by (vm_compute; reflexivity).
  assert (Hts : streams s !! 0 = Some ts) by (vm_compute; reflexivity).
  assert (Hf : first_track video ts = Some (0, t)) by (vm_compute; reflexivity).
  split; [exact Hr|]. split; [exact Hst|]. split; [exact Hts|].
  split; [exact Hf|].
  exact (toggleVideo_twice Patient s 0 ts 0 t Hr Hst Hts Hf).
Defined.

(** ** Invariants of the event loop *)

(** Evaluation of the remaining handler bodies on an opened page. *)
Ltac run_page :=
  cbv [run_closure on_open on_peer_error initializePeer getCameraPermission
       cleanup_camera];
  run_handler.

Ltac split_conj := repeat match goal with |- _ /\ _ => split end.

(** Closes the conjuncts of an invariant on an evaluated page. *)
Ltac cells_done :=
  split_conj;
  first [ tauto | discriminate | reflexivity
        | solve [eauto]
        | solve [intros; cbn; eauto]
        | solve [eexists; split; [reflexivity|];
                 first [discriminate | tauto | intros; cbn; eauto]] ].

(** A property that every closure keeps is kept by the emitter. *)
Lemma run_listeners_preserves (role : Role) (P : Page -> Prop)
    (ls : list (CallEventName * Closure)) (e : CallEvent) :
  (forall c s, P s -> P (exec (run_closure role c e) s)) ->
  forall s, P s -> P (exec (run_listeners role ls e) s).
Proof.
  intros Hc. induction ls as [|[n c] ls IH]; intros s Hs; [exact Hs|].
  unfold exec in *. cbn [run_listeners]. unfold bind, when.
  destruct (bool_decide (n = event_name e)).
  - specialize (Hc c s Hs).
    destruct (run_closure role c e s) as [u s']. cbn [snd] in Hc.
    apply IH. exact Hc.
  - cbn. apply IH. exact Hs.
Qed.

(** Induction over the pages the event loop can produce, handler by
    handler: the wrappers of the event loop (the emitter of a connection,
    the gate of a control) are dealt with once. *)
Lemma reachable_by_handlers (role : Role) (P : Page -> Prop) :
  P initialPage ->
  (forall s rnd, P s -> P (exec (initializePeer role rnd) s)) ->
  (forall s id, P s -> is_Some (peer s) -> P (exec (on_open role id) s)) ->
  (forall s from, reachable role s -> P s ->
     P (exec (step role (PeerCall from)) s)) ->
  (forall s message, P s -> P (exec (on_peer_error message) s)) ->
  (forall s o, reachable role s -> P s ->
     admissible s (Media o) = true ->
     P (exec (getCameraPermission o) s)) ->
  (forall s c e, P s -> P (exec (run_closure role c e) s)) ->
  (forall s v, P s -> P (exec (setRemotePeerIdInput v) s)) ->
  (forall s, reachable role s -> P s -> P (exec (makeCall role) s)) ->
  (forall s, reachable role s -> P s -> P (exec endCall s)) ->
  (forall s, reachable role s -> P s -> P (exec toggleVideo s)) ->
  (forall s, reachable role s -> P s -> P (exec toggleAudio s)) ->
  forall s, reachable role s -> P s.
Proof.
  intros Hinit Hmount Hopen Hcall Hperr Hmedia Hclosure Htype Hmake Hend
    Hvideo Haudio s Hreach.
  induction Hreach as [|s ev Hreach IH Hadm]; [exact Hinit|].
  destruct ev as [rnd|id|from|message|o|call e|v| | | | ].
  - apply Hmount. exact IH.
  - apply Hopen; [exact IH|].
    cbn in Hadm. apply bool_decide_eq_true in Hadm. exact Hadm.
  - apply Hcall; assumption.
  - apply Hperr. exact IH.
  - apply Hmedia; assumption.
  - unfold exec, step, emit, bind, gets. cbn [fst snd].
    destruct (conns s !! call) as [k|]; [|exact IH].
    exact (run_listeners_preserves role P (conn_listeners k) e
             (fun c s0 => Hclosure s0 c e) s IH).
  - apply Htype. exact IH.
  - unfold exec, step, click, when, bind, gets. cbn [fst snd].
    destruct (callButton_enabled s); [|exact IH]. apply Hmake; assumption.
  - unfold exec, step, click, when, bind, gets. cbn [fst snd].
    destruct (endButton_enabled s); [|exact IH]. apply Hend; assumption.
  - unfold exec, step, click, when, bind, gets. cbn [fst snd].
    destruct (toggleButton_enabled s); [|exact IH]. apply Hvideo; assumption.
  - unfold exec, step, click, when, bind, gets. cbn [fst snd].
    destruct (toggleButton_enabled s); [|exact IH]. apply Haudio; assumption.
Qed.

(** An inbound offer without local media, as a whole page. *)
Lemma on_call_rejects (role : Role) (s : Page) (from : string) :
  localStreamRef s = None ->
  exec (step role (PeerCall from)) s
  = mkPage (hasCameraPermission s) (isVideoMuted s) (isAudioMuted s) (peer s)
           (peerId s) (remotePeerIdInput s) (currentCall s) (isConnected s)
           (isCallActive s) (hasRemoteStream s) (localVideoRef s)
           (remoteVideoRef s) (localStreamRef s) (streams s)
           (conns s ++ [mkConn from None 0 []])
           (toasts s ++ [cannot_answer]).
Proof.
  intros H. open_page s. subst. run_handler. reflexivity.
Qed.

(** [makeCall] either refuses or places the offer. *)
Lemma makeCall_cases (role : Role) (s : Page) :
  (peer s = None \/ remotePeerIdInput s = "" \/ localStreamRef s = None)
  \/ (exists st, is_Some (peer s) /\ remotePeerIdInput s <> ""
                 /\ localStreamRef s = Some st).
Proof.
  destruct (peer s) eqn:Hp; [|left; left; reflexivity].
  destruct (localStreamRef s) as [st|] eqn:Hst;
    [|left; right; right; reflexivity].
  destruct (String.eqb_spec (remotePeerIdInput s) "") as [Hr|Hr];
    [left; right; left; exact Hr|].
  right. exists st. repeat split; eauto.
Qed.

(** The toggles write nothing but a track and a mute cell. *)
Lemma toggleVideo_beside (s : Page) :
  beside_tracks (exec toggleVideo s) = beside_tracks s.
Proof.
  open_page s. unfold exec, toggleVideo, bind, gets. page_cells.
  destruct localStreamRef0 as [st|]; [|reflexivity]. page_cells.
  destruct (streams0 !! st) as [ts|]; [|reflexivity].
  destruct (first_track video ts) as [[i t]|]; reflexivity.
Qed.

Lemma toggleAudio_beside (s : Page) :
  beside_tracks (exec toggleAudio s) = beside_tracks s.
Proof.
  open_page s. unfold exec, toggleAudio, bind, gets. page_cells.
  destruct localStreamRef0 as [st|]; [|reflexivity]. page_cells.
  destruct (streams0 !! st) as [ts|]; [|reflexivity].
  destruct (first_track audio ts) as [[i t]|]; reflexivity.
Qed.

Lemma cells_inv_ext (s s' : Page) :
  beside_tracks s' = beside_tracks s -> cells_inv s -> cells_inv s'.
Proof.
  unfold beside_tracks, cells_inv. destruct s, s'. page_cells.
  intros H. injection H as ?. subst. auto.
Qed.

Lemma reachable_cells_inv (role : Role) (s : Page) :
  reachable role s -> cells_inv s.
Proof.
  apply reachable_by_handlers; clear s.
  - unfold cells_inv. cbn. split; [reflexivity|]. split; [discriminate|].
    split; [eexists; split; [reflexivity|discriminate]|].
    split; [reflexivity|].
    split; [discriminate|intros [x Hx]; discriminate Hx].
  - intros s rnd H. unfold cells_inv in *. open_page s. run_page.
    destruct H as (H1 & H2 & H3 & H4 & H5). cells_done.
  - intros s id H Hp. unfold cells_inv in *. open_page s. run_page.
    destruct H as (H1 & H2 & H3 & H4 & H5). cells_done.
  - intros s from _ H. destruct (localStreamRef s) as [st|] eqn:Hst.
    + rewrite (on_call_answers role s from st Hst).
      unfold cells_inv in *. rewrite Hst in *. open_page s.
      destruct H as (H1 & H2 & H3 & H4 & H5). cells_done.
    + rewrite (on_call_rejects role s from Hst).
      unfold cells_inv in *. rewrite Hst in *. open_page s.
      destruct H as (H1 & H2 & H3 & H4 & H5). cells_done.
  - intros s message H. unfold cells_inv in *. open_page s. run_page.
    destruct H as (H1 & H2 & H3 & H4 & H5). cells_done.
  - intros s o _ H Hadm. cbn in Hadm.
    apply andb_true_iff in Hadm as [Hperm _].
    apply bool_decide_eq_true in Hperm.
    unfold cells_inv in *. open_page s. subst.
    destruct H as (H1 & H2 & H3 & H4 & H5).
    assert (Hnone : localStreamRef0 = None).
    { destruct localStreamRef0 as [st|]; [|reflexivity].
      assert (Hs : is_Some (Some st)) by eauto.
      apply H5 in Hs. discriminate Hs. }
    subst. destruct o as [|stream ts|]; run_page; split_conj; eauto;
      try (split; [discriminate|intros [x Hx]; discriminate Hx]);
      split; eauto.
  - intros s c e H. unfold cells_inv in *. open_page s.
    destruct H as (H1 & H2 & (v & Hv & H3) & H4 & H5). subst.
    destruct c, e; run_page; cells_done.
  - intros s v H. unfold cells_inv in *. open_page s. run_page.
    destruct H as (H1 & H2 & H3 & H4 & H5). cells_done.
  - intros s _ H. destruct (makeCall_cases role s) as [Hc | (st & Hp & Hr & Hst)].
    + rewrite (makeCall_refuses role s Hc).
      unfold cells_inv in *. open_page s.
      destruct H as (H1 & H2 & H3 & H4 & H5). cells_done.
    + rewrite (makeCall_places_offer role s st Hp Hr Hst).
      unfold cells_inv in *. open_page s.
      destruct H as (H1 & H2 & H3 & H4 & H5). cells_done.
  - intros s _ H. destruct (currentCall s) as [call|] eqn:Hc.
    + rewrite (endCall_with_call s call Hc).
      unfold cells_inv in *. rewrite Hc in *. open_page s.
      destruct H as (H1 & H2 & (v & Hv & H3) & H4 & H5). subst.
      cells_done.
    + unfold exec. rewrite (endCall_without_call s Hc). exact H.
  - intros s _ H. apply (cells_inv_ext s); [apply toggleVideo_beside|exact H].
  - intros s _ H. apply (cells_inv_ext s); [apply toggleAudio_beside|exact H].
Qed.

(** Ways in which a handler may change the connections while keeping
    their invariant. *)
Lemma conns_inv_weaken (s s' : Page) :
  conns s' = conns s ->
  localStreamRef s' = localStreamRef s ->
  currentCall s' = currentCall s \/ currentCall s' = None ->
  conns_inv s -> conns_inv s'.
Proof.
  intros Hc Hl Hcur [H1 H2]. split.
  - intros c k Hk. rewrite Hc in Hk. destruct (H1 c k Hk) as (Ha & Hb & Hs).
    split; [exact Ha|]. split.
    + intros Hcc. destruct Hcur as [E|E]; rewrite E in Hcc;
        [auto | discriminate Hcc].
    + unfold conn_shape in *. rewrite Hl. exact Hs.
  - intros c Hcc. rewrite Hc.
    destruct Hcur as [E|E]; rewrite E in Hcc; [auto | discriminate Hcc].
Qed.

Lemma conns_inv_append (s s' : Page) (k : MediaConnection) :
  conns_inv s ->
  conns s' = conns s ++ [k] ->
  localStreamRef s' = localStreamRef s ->
  conn_closeCalls k = 0 ->
  conn_shape s k ->
  currentCall s' = currentCall s
  \/ (currentCall s' = Some (length (conns s))
      /\ is_Some (conn_localStream k)) ->
  conns_inv s'.
Proof.
  intros [H1 H2] Happ Hl Hzero Hshape Hcur. split.
  - intros c k' Hk'. rewrite Happ in Hk'.
    apply lookup_app_Some in Hk' as [Hold | [Hlen Hnew]].
    + destruct (H1 c k' Hold) as (Ha & Hb & Hs).
      split; [exact Ha|]. split.
      * intros Hcc. destruct Hcur as [E|[E _]]; rewrite E in Hcc; [auto|].
        injection Hcc as <-. apply lookup_lt_Some in Hold. lia.
      * unfold conn_shape in *. rewrite Hl. exact Hs.
    + apply list_lookup_singleton_Some in Hnew as [_ <-].
      split; [lia|]. split; [intros _; exact Hzero|].
      unfold conn_shape in *. rewrite Hl. exact Hshape.
  - intros c Hcc. rewrite Happ. destruct Hcur as [E|[E Hsome]]; rewrite E in Hcc.
    + destruct (H2 c Hcc) as (k0 & Hk0 & Hs0). exists k0.
      split; [|exact Hs0]. apply lookup_app_l_Some. exact Hk0.
    + injection Hcc as <-. exists k. split; [apply lookup_new|exact Hsome].
Qed.

Lemma conns_inv_close (s s' : Page) (c : CallRef) :
  conns_inv s ->
  currentCall s = Some c ->
  conns s' = alter closed_once c (conns s) ->
  localStreamRef s' = localStreamRef s ->
  currentCall s' = None ->
  conns_inv s'.
Proof.
  intros [H1 H2] Hcur Halt Hl Hnone. split.
  - intros c' k' Hk'. rewrite Halt in Hk'.
    destruct (decide (c' = c)) as [->|Hne].
    + rewrite list_lookup_alter_eq in Hk'.
      destruct (conns s !! c) as [k|] eqn:Hk; [|discriminate Hk'].
      cbn in Hk'. injection Hk' as <-.
      destruct (H1 c k Hk) as (Ha & Hb & Hs).
      split; [cbn; rewrite (Hb Hcur); lia|].
      split; [intros Hcc; rewrite Hnone in Hcc; discriminate Hcc|].
      unfold conn_shape in *. cbn. rewrite Hl. exact Hs.
    + rewrite list_lookup_alter_ne in Hk' by congruence.
      destruct (H1 c' k' Hk') as (Ha & Hb & Hs).
      split; [exact Ha|].
      split; [intros Hcc; rewrite Hnone in Hcc; discriminate Hcc|].
      unfold conn_shape in *. rewrite Hl. exact Hs.
  - intros c' Hcc. rewrite Hnone in Hcc. discriminate Hcc.
Qed.

Lemma conns_inv_granted (s s' : Page) :
  conns_inv s ->
  localStreamRef s = None ->
  conns s' = conns s ->
  currentCall s' = currentCall s ->
  conns_inv s'.
Proof.
  intros [H1 H2] Hnone Hc Hcur. split.
  - intros c k Hk. rewrite Hc in Hk. destruct (H1 c k Hk) as (Ha & Hb & Hs).
    split; [exact Ha|]. split; [rewrite Hcur; exact Hb|].
    destruct Hs as [Hs | ([x Hx] & _)]; [left; exact Hs|].
    rewrite Hnone in Hx. discriminate Hx.
  - intros c Hcc. rewrite Hc. rewrite Hcur in Hcc. auto.
Qed.

Lemma reachable_conns_inv (role : Role) (s : Page) :
  reachable role s -> conns_inv s.
Proof.
  apply reachable_by_handlers; clear s.
  - split; [intros c k Hk; discriminate Hk | intros c Hc; discriminate Hc].
  - intros s rnd H. apply (conns_inv_weaken s); auto.
  - intros s id H _. apply (conns_inv_weaken s); auto.
  - intros s from _ H. destruct (localStreamRef s) as [st|] eqn:Hst.
    + rewrite (on_call_answers role s from st Hst).
      apply (conns_inv_append s _ (mkConn from (Some st) 0 answered_listeners) H);
        cbn; eauto; solve [ right; rewrite ?Hst; eauto
                          | left; split; reflexivity ].
    + rewrite (on_call_rejects role s from Hst).
      apply (conns_inv_append s _ (mkConn from None 0 []) H); cbn; eauto;
        solve [ right; rewrite ?Hst; eauto
                          | left; split; reflexivity ].
  - intros s message H. apply (conns_inv_weaken s); auto.
  - intros s o Hreach H Hadm. cbn in Hadm.
    apply andb_true_iff in Hadm as [Hperm _].
    apply bool_decide_eq_true in Hperm.
    assert (Hnone : localStreamRef s = None).
    { destruct (reachable_cells_inv role s Hreach) as (_ & _ & _ & _ & H5).
      destruct (localStreamRef s) as [st|]; [|reflexivity].
      assert (Hs : is_Some (Some st)) by eauto.
      apply H5 in Hs. congruence. }
    apply (conns_inv_granted s _ H Hnone); clear; open_page s;
      destruct o, localVideoRef0; reflexivity.
  - intros s c e H. apply (conns_inv_weaken s); [| |  |exact H]; clear H;
      open_page s; destruct c, e, remoteVideoRef0; run_page; auto.
  - intros s v H. apply (conns_inv_weaken s); auto.
  - intros s _ H. destruct (makeCall_cases role s) as [Hc | (st & Hp & Hr & Hst)].
    + rewrite (makeCall_refuses role s Hc).
      apply (conns_inv_weaken s); auto.
    + rewrite (makeCall_places_offer role s st Hp Hr Hst).
      apply (conns_inv_append s _
               (mkConn (remotePeerIdInput s) (Some st) 0 placed_listeners) H);
        cbn; eauto; solve [ right; rewrite ?Hst; eauto
                          | left; split; reflexivity ].
  - intros s _ H. destruct (currentCall s) as [call|] eqn:Hc.
    + rewrite (endCall_with_call s call Hc).
      apply (conns_inv_close s _ call H Hc); reflexivity.
    + unfold exec. rewrite (endCall_without_call s Hc). exact H.
  - intros s _ H. pose proof (toggleVideo_beside s) as Hb.
    unfold beside_tracks in Hb. injection Hb as ?.
    apply (conns_inv_weaken s); auto.
  - intros s _ H. pose proof (toggleAudio_beside s) as Hb.
    unfold beside_tracks in Hb. injection Hb as ?.
    apply (conns_inv_weaken s); auto.
Qed.

(** ** What holds on every page the event loop can produce *)

(** X1.  The active flag and the call slot always agree: [isCallActive] is
    true exactly when a connection is stored in [currentCall].  So the end
    control is enabled exactly when there is a call to end, and the call
    control is rendered exactly when the slot is empty. *)
Theorem call_flag_matches_slot (role : Role) (s : Page) :
  reachable role s ->
  (isCallActive s = true <-> is_Some (currentCall s)).
Proof.
  intros Hreach.
  destruct (reachable_cells_inv role s Hreach) as (H & _).
  destruct (currentCall s) as [c|]; rewrite H; split; eauto.
  - discriminate.
  - intros [x Hx]. discriminate Hx.
Qed.

Lemma call_flag_matches_slot_witness :
  let evs := [Mount "0.k3j5x9q2wab"; PeerOpen "PT-K3J5X9Q2";
              Media (Granted 0 camera); PeerCall "DR-AAAA1111";
              PeerCall "DR-BBBB2222"; Signal 0 Close] in
  let s := play Patient evs in
  reachable Patient s
  /\ (isCallActive s = true <-> is_Some (currentCall s)).
Proof.
  intros evs s.
  assert (Hr : reachable Patient s).
  { apply (run_reachable Patient evs initialPage);
      [apply reachable_initial | vm_compute; reflexivity]. }
  split; [exact Hr|]. exact (call_flag_matches_slot Patient s Hr).
Defined.

(** X2.  The stored call is always a live connection of this page: it
    exists, [close()] was never called on it, it carries the stream held in
    [localStreamRef] (so no call is ever active without local media), and
    it has exactly the three listeners of an answered or of a placed
    call. *)
Theorem current_call_is_live (role : Role) (s : Page) (c : CallRef) :
  reachable role s ->
  currentCall s = Some c ->
  exists k, conns s !! c = Some k
            /\ conn_closeCalls k = 0
            /\ is_Some (localStreamRef s)
            /\ conn_localStream k = localStreamRef s
            /\ (conn_listeners k = answered_listeners
                \/ conn_listeners k = placed_listeners).
Proof.
  intros Hreach Hc.
  destruct (reachable_conns_inv role s Hreach) as [H1 H2].
  destruct (H2 c Hc) as (k & Hk & [st Hst]).
  destruct (H1 c k Hk) as (_ & Hzero & Hshape).
  exists k. split; [exact Hk|]. split; [exact (Hzero Hc)|].
  destruct Hshape as [[Hnone _] | (Hs & Hl & Hls)]; [congruence|].
  repeat split; assumption.
Qed.

Lemma current_call_is_live_witness :
  let evs := [Mount "0.k3j5x9q2wab"; PeerOpen "DR-K3J5X9Q2";
              Media (Granted 0 camera); TypeRemoteId "PT-ABC12345";
              ClickCall; Signal 0 (Stream 1)] in
  let s := play Doctor evs in
  reachable Doctor s
  /\ currentCall s = Some 0
  /\ exists k, conns s !! 0 = Some k
               /\ conn_closeCalls k = 0
               /\ is_Some (localStreamRef s)
               /\ conn_localStream k = localStreamRef s
               /\ (conn_listeners k = answered_listeners
                   \/ conn_listeners k = placed_listeners).
Proof.
  intros evs s.
  assert (Hr : reachable Doctor s).
  { apply (run_reachable Doctor evs initialPage);
      [apply reachable_initial | vm_compute; reflexivity]. }
  assert (Hc : currentCall s = Some 0) by (vm_compute; reflexivity).
  split; [exact Hr|]. split; [exact Hc|].
  exact (current_call_is_live Doctor s 0 Hr Hc).
Defined.

(** X3.  No connection is ever closed twice by the page: whatever the
    sequence of events, [close()] has been called at most once on each
    connection. *)
Theorem no_double_close (role : Role) (s : Page) (c : CallRef)
    (k : MediaConnection) :
  reachable role s ->
  conns s !! c = Some k ->
  conn_closeCalls k <= 1.
Proof.
  intros Hreach Hk.
  destruct (reachable_conns_inv role s Hreach) as [H1 _].
  exact (proj1 (H1 c k Hk)).
Qed.

Lemma no_double_close_witness :
  let evs := [Mount "0.k3j5x9q2wab"; PeerOpen "PT-K3J5X9Q2";
              Media (Granted 0 camera); PeerCall "DR-XYZ98765"; ClickEnd;
              ClickEnd; Signal 0 Close; ClickEnd] in
  let s := play Patient evs in
  let k := mkConn "DR-XYZ98765" (Some 0) 1 answered_listeners in
  reachable Patient s
  /\ conns s !! 0 = Some k
  /\ conn_closeCalls k <= 1.
Proof.
  intros evs s k.
  assert (Hr : reachable Patient s).
  { apply (run_reachable Patient evs initialPage);
      [apply reachable_initial | vm_compute; reflexivity]. }
  assert (Hk : conns s !! 0 = Some k) by (vm_compute; reflexivity).
  split; [exact Hr|]. split; [exact Hk|].
  exact (no_double_close Patient s 0 k Hr Hk).
Defined.

(** X4.  The page never hands any stream but its own local stream to a
    connection, and never registers listeners on a connection it did not
    answer or place: a connection either has no stream and no listener (an
    offer left unanswered), or it carries the stream of [localStreamRef]
    and the three listeners of an answered or of a placed call. *)
Theorem connections_carry_local_stream (role : Role) (s : Page)
    (c : CallRef) (k : MediaConnection) :
  reachable role s ->
  conns s !! c = Some k ->
  (conn_localStream k = None /\ conn_listeners k = [])
  \/ (is_Some (localStreamRef s)
      /\ conn_localStream k = localStreamRef s
      /\ (conn_listeners k = answered_listeners
          \/ conn_listeners k = placed_listeners)).
Proof.
  intros Hreach Hk.
  destruct (reachable_conns_inv role s Hreach) as [H1 _].
  exact (proj2 (proj2 (H1 c k Hk))).
Qed.

Lemma connections_carry_local_stream_witness :
  let evs := [Mount "0.k3j5x9q2wab"; PeerOpen "PT-K3J5X9Q2";
              PeerCall "DR-AAAA1111"; Media (Granted 0 camera);
              PeerCall "DR-BBBB2222"] in
  let s := play Patient evs in
  let k := mkConn "DR-BBBB2222" (Some 0) 0 answered_listeners in
  reachable Patient s
  /\ conns s !! 1 = Some k
  /\ ((conn_localStream k = None /\ conn_listeners k = [])
      \/ (is_Some (localStreamRef s)
          /\ conn_localStream k = localStreamRef s
          /\ (conn_listeners k = answered_listeners
              \/ conn_listeners k = placed_listeners))).
Proof.
  intros evs s k.
  assert (Hr : reachable Patient s).
  { apply (run_reachable Patient evs initialPage);
      [apply reachable_initial | vm_compute; reflexivity]. }
  assert (Hk : conns s !! 1 = Some k) by (vm_compute; reflexivity).
  split; [exact Hr|]. split; [exact Hk|].
  exact (connections_carry_local_stream Patient s 1 k Hr Hk).
Defined.

(** X5.  The camera cells agree: permission is recorded as granted exactly
    when a local stream is held, the stream held is in the store, the
    preview element shows exactly that stream (or nothing), and the two
    mute controls are enabled exactly when a stream is held. *)
Theorem camera_cells_agree (role : Role) (s : Page) :
  reachable role s ->
  (hasCameraPermission s = Some true <-> is_Some (localStreamRef s))
  /\ (toggleButton_enabled s = true <-> is_Some (localStreamRef s))
  /\ localVideoRef s = Some (mkVideo (localStreamRef s))
  /\ (forall st, localStreamRef s = Some st -> is_Some (streams s !! st)).
Proof.
  intros Hreach.
  destruct (reachable_cells_inv role s Hreach) as (_ & _ & _ & H4 & H5).
  pose proof (reachable_media_inv role s Hreach) as Hm.
  split; [exact H5|]. split; [|split; [exact H4|]].
  - rewrite <- H5. unfold toggleButton_enabled.
    destruct (hasCameraPermission s) as [[|]|]; split; congruence.
  - intros st Hst. unfold media_inv in Hm. rewrite Hst in Hm.
    destruct Hm as (_ & ts & Hts & _). eauto.
Qed.

Lemma camera_cells_agree_witness :
  let evs := [Mount "0.k3j5x9q2wab"; PeerCall "DR-XYZ98765";
              Media (Granted 0 camera); ClickVideo] in
  let s := play Patient evs in
  reachable Patient s
  /\ ((hasCameraPermission s = Some true <-> is_Some (localStreamRef s))
      /\ (toggleButton_enabled s = true <-> is_Some (localStreamRef s))
      /\ localVideoRef s = Some (mkVideo (localStreamRef s))
      /\ (forall st, localStreamRef s = Some st -> is_Some (streams s !! st))).
Proof.
  intros evs s.
  assert (Hr : reachable Patient s).
  { apply (run_reachable Patient evs initialPage);
      [apply reachable_initial | vm_compute; reflexivity]. }
  split; [exact Hr|]. exact (camera_cells_agree Patient s Hr).
Defined.

(** X6.  Whenever the remote-stream flag is set, the remote video element
    is mounted and shows a stream: the placeholder is never hidden in
    favour of an empty element. *)
Theorem remote_flag_implies_binding (role : Role) (s : Page) :
  reachable role s ->
  hasRemoteStream s = true ->
  exists rs, remoteVideoRef s = Some (mkVideo (Some rs)).
Proof.
  intros Hreach Hflag.
  destruct (reachable_cells_inv role s Hreach)
    as (_ & _ & (v & Hv & Hsrc) & _).
  destruct (Hsrc Hflag) as [rs Hrs]. exists rs.
  rewrite Hv. destruct v as [src]. cbn in Hrs. rewrite Hrs. reflexivity.
Qed.

Lemma remote_flag_implies_binding_witness :
  let evs := [Mount "0.k3j5x9q2wab"; PeerOpen "PT-K3J5X9Q2";
              Media (Granted 0 camera); PeerCall "DR-AAAA1111";
              PeerCall "DR-BBBB2222"; Signal 0 Close; Signal 1 (Stream 2)] in
  let s := play Patient evs in
  reachable Patient s
  /\ hasRemoteStream s = true
  /\ exists rs, remoteVideoRef s = Some (mkVideo (Some rs)).
Proof.
  intros evs s.
  assert (Hr : reachable Patient s).
  { apply (run_reachable Patient evs initialPage);
      [apply reachable_initial | vm_compute; reflexivity]. }
  assert (Hf : hasRemoteStream s = true) by (vm_compute; reflexivity).
  split; [exact Hr|]. split; [exact Hf|].
  exact (remote_flag_implies_binding Patient s Hr Hf).
Defined.

(** ** Registration *)

Lemma run_closure_registration (role : Role) (c : Closure) (e : CallEvent)
    (s : Page) :
  isConnected (exec (run_closure role c e) s) = isConnected s
  /\ peerId (exec (run_closure role c e) s) = peerId s
  /\ peer (exec (run_closure role c e) s) = peer s.
Proof.
  open_page s. destruct c, e, remoteVideoRef0; run_page; auto.
Qed.

(** X7.  The registration cells are written by the [Peer]'s [open] event
    and by nothing else: no other event, be it an error of the [Peer], any
    event of a connection, the outcome of the capture request or a click,
    changes [isConnected] or [peerId].  In particular nothing ever resets
    [isConnected]: once the registration is shown as open it stays so. *)
Theorem registration_written_by_open_only (role : Role) (s : Page)
    (ev : Event) :
  (isConnected s = true -> isConnected (exec (step role ev) s) = true)
  /\ ((forall id, ev <> PeerOpen id) ->
      isConnected (exec (step role ev) s) = isConnected s
      /\ peerId (exec (step role ev) s) = peerId s).
Proof.
  assert (Hframe : (forall id, ev <> PeerOpen id) ->
            isConnected (exec (step role ev) s) = isConnected s
            /\ peerId (exec (step role ev) s) = peerId s).
  { intros Hev.
    destruct ev as [rnd|id|from|message|o|call e|v| | | | ].
    - open_page s. run_page. auto.
    - exfalso. exact (Hev id eq_refl).
    - destruct (localStreamRef s) as [st|] eqn:Hst.
      + rewrite (on_call_answers role s from st Hst). auto.
      + rewrite (on_call_rejects role s from Hst). auto.
    - open_page s. run_page. auto.
    - open_page s. destruct o, localVideoRef0; run_page; auto.
    - unfold exec, step, emit, bind, gets. cbn [fst snd].
      destruct (conns s !! call) as [k|]; [|auto].
      apply (run_listeners_preserves role
               (fun s' => isConnected s' = isConnected s
                          /\ peerId s' = peerId s)); [|auto].
      intros c s0 [H1 H2].
      destruct (run_closure_registration role c e s0) as (E1 & E2 & _).
      rewrite E1, E2. auto.
    - open_page s. run_page. auto.
    - unfold exec, step, click, when, bind, gets. cbn [fst snd].
      destruct (callButton_enabled s); [|auto].
      destruct (makeCall_cases role s) as [Hc | (st & Hp & Hr & Hst)].
      + fold (exec (makeCall role) s). rewrite (makeCall_refuses role s Hc).
        auto.
      + fold (exec (makeCall role) s).
        rewrite (makeCall_places_offer role s st Hp Hr Hst). auto.
    - unfold exec, step, click, when, bind, gets. cbn [fst snd].
      destruct (endButton_enabled s); [|auto].
      fold (exec endCall s).
      destruct (currentCall s) as [call|] eqn:Hc.
      + rewrite (endCall_with_call s call Hc). auto.
      + unfold exec. rewrite (endCall_without_call s Hc). auto.
    - unfold exec, step, click, when, bind, gets. cbn [fst snd].
      destruct (toggleButton_enabled s); [|auto].
      pose proof (toggleVideo_beside s) as Hb. unfold beside_tracks in Hb.
      injection Hb as ?. auto.
    - unfold exec, step, click, when, bind, gets. cbn [fst snd].
      destruct (toggleButton_enabled s); [|auto].
      pose proof (toggleAudio_beside s) as Hb. unfold beside_tracks in Hb.
      injection Hb as ?. auto. }
  split; [|exact Hframe].
  intros Hconn. destruct ev as [rnd|id|from|message|o|call e|v| | | | ];
    try (rewrite (proj1 (Hframe ltac:(discriminate))); exact Hconn).
  open_page s. run_page. reflexivity.
Qed.

Lemma registration_written_by_open_only_witness :
  let s := play Patient [Mount "0.k3j5x9q2wab"; PeerOpen "PT-K3J5X9Q2"] in
  let ev := PeerError "Lost connection to server." in
  isConnected s = true
  /\ (forall id, ev <> PeerOpen id)
  /\ isConnected (exec (step Patient ev) s) = true
  /\ (isConnected (exec (step Patient ev) s) = isConnected s
      /\ peerId (exec (step Patient ev) s) = peerId s).
Proof.
  intros s ev.
  assert (Hc : isConnected s = true) by (vm_compute; reflexivity).
  assert (Hev : forall id, ev <> PeerOpen id) by (intros id; discriminate).
  split; [exact Hc|]. split; [exact Hev|]. split.
  - exact (proj1 (registration_written_by_open_only Patient s ev) Hc).
  - exact (proj2 (registration_written_by_open_only Patient s ev) Hev).
Defined.

(** ** More on the mute toggles *)

(** A toggle with nothing to write. *)
Lemma toggleVideo_nothing (s : Page) :
  match localStreamRef s with
  | Some st =>
      match streams s !! st with
      | Some ts => first_track video ts = None
      | None => True
      end
  | None => True
  end ->
  exec toggleVideo s = s.
Proof.
  unfold exec, toggleVideo, bind, gets. cbn [fst snd].
  destruct (localStreamRef s) as [st|]; [|reflexivity].
  destruct (streams s !! st) as [ts|]; [|reflexivity].
  intros ->. reflexivity.
Qed.

Lemma toggleAudio_nothing (s : Page) :
  match localStreamRef s with
  | Some st =>
      match streams s !! st with
      | Some ts => first_track audio ts = None
      | None => True
      end
  | None => True
  end ->
  exec toggleAudio s = s.
Proof.
  unfold exec, toggleAudio, bind, gets. cbn [fst snd].
  destruct (localStreamRef s) as [st|]; [|reflexivity].
  destruct (streams s !! st) as [ts|]; [|reflexivity].
  intros ->. reflexivity.
Qed.

(** X8.  On every page the event loop can produce whose local stream has
    an audio track, one [toggleAudio] flips that track's [enabled] flag and
    the audio-muted cell, and a second one gives back exactly the page
    there was before: same flag, same cell, same stream object. *)
Theorem toggleAudio_twice (role : Role) (s : Page) (st : StreamRef)
    (ts : list MediaStreamTrack) (i : nat) (t : MediaStreamTrack) :
  reachable role s ->
  localStreamRef s = Some st ->
  streams s !! st = Some ts ->
  first_track audio ts = Some (i, t) ->
  let s1 := exec toggleAudio s in
  let s2 := exec toggleAudio s1 in
  (localStreamRef s1 = Some st
   /\ streams s1 !! st = Some (<[i := flip_enabled t]> ts)
   /\ isAudioMuted s1 = negb (isAudioMuted s))
  /\ s2 = s.
Proof.
  intros Hreach Hst Hts Hf s1 s2.
  pose proof (reachable_media_inv role s Hreach) as Hinv.
  unfold media_inv in Hinv. rewrite Hst in Hinv.
  destruct Hinv as (_ & ts' & Hts' & _ & Hsync).
  assert (ts' = ts) by congruence. subst ts'.
  pose proof (Hsync i t Hf) as Hmuted.
  pose proof (first_track_flipped audio ts i t Hf) as Hf1.
  destruct (first_track_lookup audio ts i t Hf) as [Hi _].
  assert (H1 : s1 = mkPage (hasCameraPermission s) (isVideoMuted s) (enabled t)
                 (peer s) (peerId s) (remotePeerIdInput s) (currentCall s)
                 (isConnected s) (isCallActive s) (hasRemoteStream s)
                 (localVideoRef s) (remoteVideoRef s) (localStreamRef s)
                 (<[st := <[i := flip_enabled t]> ts]> (streams s)) (conns s)
                 (toasts s))
    by apply (toggleAudio_flips s st ts i t Hst Hts Hf).
  assert (Hst1 : localStreamRef s1 = Some st) by (rewrite H1; exact Hst).
  assert (Hts1 : streams s1 !! st = Some (<[i := flip_enabled t]> ts))
    by (rewrite H1; apply lookup_insert_eq).
  split.
  - split; [exact Hst1|]. split; [exact Hts1|].
    rewrite H1. cbn. rewrite Hmuted, negb_involutive. reflexivity.
  - subst s2. rewrite (toggleAudio_flips s1 st _ i _ Hst1 Hts1 Hf1).
    rewrite flip_enabled_twice, list_insert_insert_eq, (list_insert_id ts i t Hi).
    rewrite H1. cbn [hasCameraPermission isVideoMuted peer peerId
      remotePeerIdInput currentCall isConnected isCallActive hasRemoteStream
      localVideoRef remoteVideoRef localStreamRef streams conns toasts].
    rewrite insert_insert_eq, (insert_id (streams s) st ts Hts).
    cbn [flip_enabled enabled]. rewrite <- Hmuted.
    destruct s; reflexivity.
Qed.

Lemma toggleAudio_twice_witness :
  let evs := [Mount "0.k3j5x9q2wab"; Media (Granted 0 camera); ClickAudio;
              ClickVideo; ClickAudio; ClickAudio] in
  let s := play Doctor evs in
  let ts := [mkTrack video false live; mkTrack audio false live] in
  let t := mkTrack audio false live in
  reachable Doctor s
  /\ localStreamRef s = Some 0
  /\ streams s !! 0 = Some ts
  /\ first_track audio ts = Some (1, t)
  /\ (let s1 := exec toggleAudio s in
      let s2 := exec toggleAudio s1 in
      (localStreamRef s1 = Some 0
       /\ streams s1 !! 0 = Some (<[1 := flip_enabled t]> ts)
       /\ isAudioMuted s1 = negb (isAudioMuted s))
      /\ s2 = s).
Proof.
  intros evs s ts t.
  assert (Hr : reachable Doctor s).
  { apply (run_reachable Doctor evs initialPage);
      [apply reachable_initial | vm_compute; reflexivity]. }
  assert (Hst : localStreamRef s = Some 0) by (vm_compute; reflexivity).
  assert (Hts : streams s !! 0 = Some ts) by (vm_compute; reflexivity).
  assert (Hf : first_track audio ts = Some (1, t)) by (vm_compute; reflexivity).
  split; [exact Hr|]. split; [exact Hst|]. split; [exact Hts|].
  split; [exact Hf|].
  exact (toggleAudio_twice Doctor s 0 ts 1 t Hr Hst Hts Hf).
Defined.

(** X9.  The two toggles are independent of one another: muting the video
    and muting the audio commute, on every page. *)
Theorem toggles_commute (s : Page) :
  exec toggleVideo (exec toggleAudio s) = exec toggleAudio (exec toggleVideo s).
Proof.
  destruct (localStreamRef s) as [st|] eqn:Hst.
  2: { assert (Hn1 : exec toggleAudio s = s)
         by (apply toggleAudio_nothing; rewrite Hst; exact I).
       assert (Hn2 : exec toggleVideo s = s)
         by (apply toggleVideo_nothing; rewrite Hst; exact I).
       rewrite Hn1, Hn2, Hn1. reflexivity. }
  destruct (streams s !! st) as [ts|] eqn:Hts.
  2: { assert (Hn1 : exec toggleAudio s = s)
         by (apply toggleAudio_nothing; rewrite Hst, Hts; exact I).
       assert (Hn2 : exec toggleVideo s = s)
         by (apply toggleVideo_nothing; rewrite Hst, Hts; exact I).
       rewrite Hn1, Hn2, Hn1. reflexivity. }
  destruct (first_track video ts) as [[i t]|] eqn:Hv;
    destruct (first_track audio ts) as [[j u]|] eqn:Ha.
  - destruct (first_track_lookup video ts i t Hv) as [Hi Hkt].
    destruct (first_track_lookup audio ts j u Ha) as [Hj Hku].
    assert (Hij : i <> j) by (intros ->; congruence).
    pose proof (toggleAudio_flips s st ts j u Hst Hts Ha) as HA.
    pose proof (toggleVideo_flips s st ts i t Hst Hts Hv) as HV.
    assert (HvA : first_track video (<[j := flip_enabled u]> ts) = Some (i, t))
      by (rewrite (first_track_other audio video ts j u); [exact Hv|discriminate|exact Ha]).
    assert (HaV : first_track audio (<[i := flip_enabled t]> ts) = Some (j, u))
      by (rewrite (first_track_other video audio ts i t); [exact Ha|discriminate|exact Hv]).
    rewrite (toggleVideo_flips (exec toggleAudio s) st
               (<[j := flip_enabled u]> ts) i t);
      [|rewrite HA; exact Hst|rewrite HA; apply lookup_insert_eq|exact HvA].
    rewrite (toggleAudio_flips (exec toggleVideo s) st
               (<[i := flip_enabled t]> ts) j u);
      [|rewrite HV; exact Hst|rewrite HV; apply lookup_insert_eq|exact HaV].
    rewrite HA, HV. page_cells. rewrite !insert_insert_eq.
    rewrite (list_insert_insert_ne ts i j) by exact Hij. reflexivity.
  - pose proof (toggleVideo_flips s st ts i t Hst Hts Hv) as HV.
    rewrite (toggleAudio_nothing s) by (rewrite Hst, Hts; exact Ha).
    rewrite (toggleAudio_nothing (exec toggleVideo s)); [reflexivity|].
    rewrite HV. page_cells. rewrite Hst, lookup_insert_eq.
    rewrite (first_track_other video audio ts i t); [exact Ha|discriminate|exact Hv].
  - pose proof (toggleAudio_flips s st ts j u Hst Hts Ha) as HA.
    rewrite (toggleVideo_nothing s) by (rewrite Hst, Hts; exact Hv).
    rewrite (toggleVideo_nothing (exec toggleAudio s)); [reflexivity|].
    rewrite HA. page_cells. rewrite Hst, lookup_insert_eq.
    rewrite (first_track_other audio video ts j u); [exact Hv|discriminate|exact Ha].
  - rewrite (toggleAudio_nothing s) by (rewrite Hst, Hts; exact Ha).
    rewrite (toggleVideo_nothing s) by (rewrite Hst, Hts; exact Hv).
    rewrite (toggleAudio_nothing s) by (rewrite Hst, Hts; exact Ha).
    reflexivity.
Qed.

Lemma flip_keeps_rest (k : TrackKind) (ts : list MediaStreamTrack) (i : nat)
    (t : MediaStreamTrack) :
  first_track k ts = Some (i, t) ->
  kind <$> <[i := flip_enabled t]> ts = kind <$> ts
  /\ readyState <$> <[i := flip_enabled t]> ts = readyState <$> ts
  /\ (forall j u, ts !! j = Some u -> kind u <> k ->
        <[i := flip_enabled t]> ts !! j = Some u).
Proof.
  intros Hf. destruct (first_track_lookup k ts i t Hf) as [Hi Hk].
  split; [|split].
  - rewrite list_fmap_insert. apply list_insert_id.
    rewrite list_lookup_fmap, Hi. reflexivity.
  - rewrite list_fmap_insert. apply list_insert_id.
    rewrite list_lookup_fmap, Hi. reflexivity.
  - intros j u Hj Hu. rewrite list_lookup_insert_ne; [exact Hj|].
    intros ->. congruence.
Qed.

(** X10.  A toggle never stops, adds, removes or re-types a track and never
    touches another stream: after [toggleVideo] (and likewise after
    [toggleAudio]) the local stream has the same tracks in the same order
    with the same kinds and ready states, every track of the other kind is
    exactly as before, every other stream of the store is as before, and no
    cell outside the mute cells changes (no signalling, no notice). *)
Theorem toggles_keep_tracks (s : Page) (st : StreamRef)
    (ts : list MediaStreamTrack) :
  localStreamRef s = Some st ->
  streams s !! st = Some ts ->
  (exists ts', streams (exec toggleVideo s) !! st = Some ts'
               /\ kind <$> ts' = kind <$> ts
               /\ readyState <$> ts' = readyState <$> ts
               /\ (forall j u, ts !! j = Some u -> kind u <> video ->
                     ts' !! j = Some u))
  /\ (exists ts', streams (exec toggleAudio s) !! st = Some ts'
                  /\ kind <$> ts' = kind <$> ts
                  /\ readyState <$> ts' = readyState <$> ts
                  /\ (forall j u, ts !! j = Some u -> kind u <> audio ->
                        ts' !! j = Some u))
  /\ (forall r, r <> st ->
        streams (exec toggleVideo s) !! r = streams s !! r
        /\ streams (exec toggleAudio s) !! r = streams s !! r)
  /\ beside_tracks (exec toggleVideo s) = beside_tracks s
  /\ beside_tracks (exec toggleAudio s) = beside_tracks s.
Proof.
  intros Hst Hts.
  split; [|split; [|split; [|split]]].
  - destruct (first_track video ts) as [[i t]|] eqn:Hf.
    + rewrite (toggleVideo_flips s st ts i t Hst Hts Hf). page_cells.
      exists (<[i := flip_enabled t]> ts).
      split; [apply lookup_insert_eq|]. exact (flip_keeps_rest video ts i t Hf).
    + rewrite (toggleVideo_nothing s) by (rewrite Hst, Hts; exact Hf).
      exists ts. auto.
  - destruct (first_track audio ts) as [[i t]|] eqn:Hf.
    + rewrite (toggleAudio_flips s st ts i t Hst Hts Hf). page_cells.
      exists (<[i := flip_enabled t]> ts).
      split; [apply lookup_insert_eq|]. exact (flip_keeps_rest audio ts i t Hf).
    + rewrite (toggleAudio_nothing s) by (rewrite Hst, Hts; exact Hf).
      exists ts. auto.
  - intros r Hr. split.
    + destruct (first_track video ts) as [[i t]|] eqn:Hf.
      * rewrite (toggleVideo_flips s st ts i t Hst Hts Hf). page_cells.
        apply lookup_insert_ne. congruence.
      * rewrite (toggleVideo_nothing s) by (rewrite Hst, Hts; exact Hf).
        reflexivity.
    + destruct (first_track audio ts) as [[i t]|] eqn:Hf.
      * rewrite (toggleAudio_flips s st ts i t Hst Hts Hf). page_cells.
        apply lookup_insert_ne. congruence.
      * rewrite (toggleAudio_nothing s) by (rewrite Hst, Hts; exact Hf).
        reflexivity.
  - apply toggleVideo_beside.
  - apply toggleAudio_beside.
Qed.

Lemma toggles_keep_tracks_witness :
  let s := play Patient [Mount "0.k3j5x9q2wab"; PeerOpen "PT-K3J5X9Q2";
                         Media (Granted 0 camera); PeerCall "DR-XYZ98765"] in
  localStreamRef s = Some 0
  /\ streams s !! 0 = Some camera
  /\ ((exists ts', streams (exec toggleVideo s) !! 0 = Some ts'
                   /\ kind <$> ts' = kind <$> camera
                   /\ readyState <$> ts' = readyState <$> camera
                   /\ (forall j u, camera !! j = Some u -> kind u <> video ->
                         ts' !! j = Some u))
      /\ (exists ts', streams (exec toggleAudio s) !! 0 = Some ts'
                      /\ kind <$> ts' = kind <$> camera
                      /\ readyState <$> ts' = readyState <$> camera
                      /\ (forall j u, camera !! j = Some u -> kind u <> audio ->
                            ts' !! j = Some u))
      /\ (forall r, r <> 0 ->
            streams (exec toggleVideo s) !! r = streams s !! r
            /\ streams (exec toggleAudio s) !! r = streams s !! r)
      /\ beside_tracks (exec toggleVideo s) = beside_tracks s
      /\ beside_tracks (exec toggleAudio s) = beside_tracks s).
Proof.
  intros s.
  assert (Hst : localStreamRef s = Some 0) by (vm_compute; reflexivity).
  assert (Hts : streams s !! 0 = Some camera) by (vm_compute; reflexivity).
  split; [exact Hst|]. split; [exact Hts|].
  exact (toggles_keep_tracks s 0 camera Hst Hts).
Defined.

(** ** More on call sessions *)

(** X11.  An [error] event on a placed call resets the three session cells
    and shows the "Call Failed" notice; it does not call [close()] on the
    connection and does not unbind the remote video element, which keeps
    whatever source it had; registration, camera and connections are
    untouched. *)
Theorem placed_call_error (role : Role) (s : Page) (call : CallRef)
    (k : MediaConnection) :
  conns s !! call = Some k ->
  conn_listeners k = placed_listeners ->
  let s' := exec (step role (Signal call Error)) s in
  idle s'
  /\ toasts s' = toasts s ++ [call_failed role]
  /\ conns s' = conns s
  /\ remoteVideoRef s' = remoteVideoRef s
  /\ isConnected s' = isConnected s
  /\ peerId s' = peerId s
  /\ localStreamRef s' = localStreamRef s
  /\ streams s' = streams s.
Proof.
  intros Hk Hls s'. subst s'.
  rewrite (error_on_placed_call role s call k Hk Hls).
  repeat split; reflexivity.
Qed.

Lemma placed_call_error_witness :
  let s := play Patient [Mount "0.k3j5x9q2wab"; PeerOpen "PT-K3J5X9Q2";
                         Media (Granted 0 camera); TypeRemoteId "DR-XYZ98765";
                         ClickCall; Signal 0 (Stream 1)] in
  let k := mkConn "DR-XYZ98765" (Some 0) 0 placed_listeners in
  conns s !! 0 = Some k
  /\ conn_listeners k = placed_listeners
  /\ remoteVideoRef s = Some (mkVideo (Some 1))
  /\ (let s' := exec (step Patient (Signal 0 Error)) s in
      idle s'
      /\ toasts s' = toasts s ++ [call_failed Patient]
      /\ conns s' = conns s
      /\ remoteVideoRef s' = remoteVideoRef s
      /\ isConnected s' = isConnected s
      /\ peerId s' = peerId s
      /\ localStreamRef s' = localStreamRef s
      /\ streams s' = streams s).
Proof.
  intros s k.
  assert (Hk : conns s !! 0 = Some k) by (vm_compute; reflexivity).
  assert (Hls : conn_listeners k = placed_listeners) by reflexivity.
  assert (Hv : remoteVideoRef s = Some (mkVideo (Some 1)))
    by (vm_compute; reflexivity).
  split; [exact Hk|]. split; [exact Hls|]. split; [exact Hv|].
  exact (placed_call_error Patient s 0 k Hk Hls).
Defined.



(** ** The controls *)

(** X13.  Through the call control an offer is placed exactly under the
    guard of the transition: on every page the event loop can produce, a
    click on the control adds a connection if and only if no call is
    active, the registration is open, a remote identity is typed and the
    local stream is present; the new connection then goes to the typed
    identity with the local stream and becomes the current call. *)
Theorem call_click_places_offer_iff (role : Role) (s : Page) :
  reachable role s ->
  let s' := exec (step role ClickCall) s in
  (conns s' <> conns s <->
     isCallActive s = false /\ isConnected s = true
     /\ remotePeerIdInput s <> "" /\ is_Some (localStreamRef s))
  /\ (conns s' <> conns s ->
      conns s' = conns s ++ [mkConn (remotePeerIdInput s) (localStreamRef s)
                                    0 placed_listeners]
      /\ currentCall s' = Some (length (conns s))
      /\ isCallActive s' = true).
Proof.
  intros Hreach s'.
  destruct (reachable_cells_inv role s Hreach) as (_ & Hpeer & _).
  assert (Hstep : s' = if callButton_enabled s then exec (makeCall role) s
                       else s).
  { subst s'. unfold exec, step, click, when, bind, gets. cbn [fst snd].
    destruct (callButton_enabled s); reflexivity. }
  assert (Hgate : callButton_enabled s = true <->
            isCallActive s = false /\ isConnected s = true
            /\ remotePeerIdInput s <> "").
  { unfold callButton_enabled. rewrite <- truthy_spec.
    destruct (isCallActive s), (isConnected s), (truthy (remotePeerIdInput s));
      cbn; intuition congruence. }
  assert (Hgrow : forall (l : list MediaConnection) x, l ++ [x] <> l).
  { intros l x E. apply (f_equal length) in E.
    rewrite length_app in E. cbn in E. lia. }
  destruct (callButton_enabled s) eqn:Hb.
  - destruct (proj1 Hgate eq_refl) as (Ha & Hc & Hr).
    destruct (makeCall_cases role s) as [Hno | (st & Hp & _ & Hst)].
    + rewrite (makeCall_refuses role s Hno) in Hstep. rewrite Hstep.
      page_cells. split; [|intros E; contradiction].
      split; [intros E; contradiction|].
      intros (_ & _ & _ & [st Hst]).
      destruct Hno as [Hno | [Hno | Hno]].
      * destruct (Hpeer Hc) as [p Hp]. congruence.
      * contradiction.
      * congruence.
    + rewrite (makeCall_places_offer role s st Hp Hr Hst) in Hstep.
      rewrite Hstep. page_cells. rewrite Hst. split.
      * split; [intros _; repeat split; eauto | intros _; apply Hgrow].
      * intros _. repeat split; reflexivity.
  - rewrite Hstep. split; [|intros E; contradiction].
    split; [intros E; contradiction|].
    intros (Ha & Hc & Hr & _).
    assert (Ht : false = true) by (apply Hgate; auto).
    discriminate Ht.
Qed.

Lemma call_click_places_offer_iff_witness :
  let evs := [Mount "0.k3j5x9q2wab"; PeerOpen "PT-K3J5X9Q2";
              Media (Granted 0 camera); TypeRemoteId "DR-XYZ98765"] in
  let s := play Patient evs in
  reachable Patient s
  /\ (let s' := exec (step Patient ClickCall) s in
      (conns s' <> conns s <->
         isCallActive s = false /\ isConnected s = true
         /\ remotePeerIdInput s <> "" /\ is_Some (localStreamRef s))
      /\ (conns s' <> conns s ->
          conns s' = conns s ++ [mkConn (remotePeerIdInput s)
                                        (localStreamRef s) 0 placed_listeners]
          /\ currentCall s' = Some (length (conns s))
          /\ isCallActive s' = true)).
Proof.
  intros evs s.
  assert (Hr : reachable Patient s).
  { apply (run_reachable Patient evs initialPage);
      [apply reachable_initial | vm_compute; reflexivity]. }
  split; [exact Hr|]. exact (call_click_places_offer_iff Patient s Hr).
Defined.

(** X14.  Whenever the end control is enabled, a click on it ends the
    call: on every page the event loop can produce with [isCallActive]
    true there is a stored connection, never closed before; the click
    closes it once, shows the "Call Ended" notice and leaves the session
    idle, so that the call control is rendered again. *)
Theorem end_click_ends_call (role : Role) (s : Page) :
  reachable role s ->
  isCallActive s = true ->
  let s' := exec (step role ClickEnd) s in
  exists c k,
    currentCall s = Some c
    /\ conns s !! c = Some k
    /\ conn_closeCalls k = 0
    /\ conns s' = <[c := closed_once k]> (conns s)
    /\ idle s'
    /\ toasts s' = toasts s ++ [call_ended]
    /\ endButton_enabled s' = false.
Proof.
  intros Hreach Hact s'.
  destruct (reachable_cells_inv role s Hreach) as (Hslot & _).
  destruct (currentCall s) as [c|] eqn:Hc; [|congruence].
  destruct (reachable_conns_inv role s Hreach) as [H1 H2].
  destruct (H2 c Hc) as (k & Hk & _).
  destruct (H1 c k Hk) as (_ & Hzero & _).
  exists c, k.
  assert (Hs' : s' = exec endCall s).
  { subst s'. unfold exec, step, click, when, bind, gets, endButton_enabled.
    cbn [fst snd]. rewrite Hact. reflexivity. }
  rewrite Hs', (endCall_with_call s c Hc). page_cells.
  split; [reflexivity|]. split; [exact Hk|]. split; [exact (Hzero Hc)|].
  split; [|repeat split; reflexivity].
  apply list_eq. intros j. destruct (decide (j = c)) as [->|Hne].
  - rewrite list_lookup_alter_eq, Hk.
    rewrite list_lookup_insert_eq by (apply lookup_lt_Some in Hk; exact Hk).
    reflexivity.
  - rewrite list_lookup_alter_ne, list_lookup_insert_ne by congruence.
    reflexivity.
Qed.

Lemma end_click_ends_call_witness :
  let evs := [Mount "0.k3j5x9q2wab"; PeerOpen "PT-K3J5X9Q2";
              Media (Granted 0 camera); PeerCall "DR-XYZ98765";
              Signal 0 (Stream 1)] in
  let s := play Patient evs in
  reachable Patient s
  /\ isCallActive s = true
  /\ (let s' := exec (step Patient ClickEnd) s in
      exists c k,
        currentCall s = Some c
        /\ conns s !! c = Some k
        /\ conn_closeCalls k = 0
        /\ conns s' = <[c := closed_once k]> (conns s)
        /\ idle s'
        /\ toasts s' = toasts s ++ [call_ended]
        /\ endButton_enabled s' = false).
Proof.
  intros evs s.
  assert (Hr : reachable Patient s).
  { apply (run_reachable Patient evs initialPage);
      [apply reachable_initial | vm_compute; reflexivity]. }
  assert (Ha : isCallActive s = true) by (vm_compute; reflexivity).
  split; [exact Hr|]. split; [exact Ha|].
  exact (end_click_ends_call Patient s Hr Ha).
Defined.

(** ** Notices *)

(** A [close] event on a connection that carries the page's listeners. *)
Lemma close_received (role : Role) (s : Page) (call : CallRef)
    (k : MediaConnection) :
  conns s !! call = Some k ->
  conn_listeners k = answered_listeners \/ conn_listeners k = placed_listeners ->
  exec (step role (Signal call Close)) s
  = mkPage (hasCameraPermission s) (isVideoMuted s) (isAudioMuted s) (peer s)
           (peerId s) (remotePeerIdInput s) None (isConnected s) false false
           (localVideoRef s) ((fun _ => mkVideo None) <$> remoteVideoRef s)
           (localStreamRef s) (streams s) (conns s) (toasts s).
Proof.
  intros Hk Hls. unfold exec, step, emit, bind, gets. cbn [fst snd].
  rewrite Hk. clear Hk. open_page s.
  destruct Hls as [-> | ->], remoteVideoRef0; reflexivity.
Qed.

(** X15.  Every event shows at most one notice and never removes or
    rewrites an earlier one; mounting, typing, the two mute toggles, an
    incoming remote stream and a remote hang-up show none. *)
Theorem notices_per_event (role : Role) (s : Page) (ev : Event) :
  reachable role s ->
  exists ts, toasts (exec (step role ev) s) = toasts s ++ ts
             /\ length ts <= 1
             /\ (silent ev = true -> ts = []).
Proof.
  intros Hreach.
  assert (Hnone : forall s', toasts s' = toasts s ->
            exists ts, toasts s' = toasts s ++ ts /\ length ts <= 1
                       /\ (silent ev = true -> ts = [])).
  { intros s' E. exists []. rewrite app_nil_r. auto. }
  assert (Hone : forall s' t, silent ev = false ->
            toasts s' = toasts s ++ [t] ->
            exists ts, toasts s' = toasts s ++ ts /\ length ts <= 1
                       /\ (silent ev = true -> ts = [])).
  { intros s' t Hs E. exists [t]. split; [exact E|].
    split; [cbn; lia|congruence]. }
  destruct ev as [rnd|id|from|message|o|call e|v| | | | ].
  - apply Hnone. clear. open_page s. reflexivity.
  - eapply Hone; [reflexivity|]. clear. open_page s. run_page. reflexivity.
  - destruct (localStreamRef s) as [st|] eqn:Hst.
    + eapply Hone; [reflexivity|].
      rewrite (on_call_answers role s from st Hst). reflexivity.
    + eapply Hone; [reflexivity|].
      rewrite (on_call_rejects role s from Hst). reflexivity.
  - eapply Hone; [reflexivity|]. clear. open_page s. run_page. reflexivity.
  - destruct o as [|stream ts|]; (eapply Hone; [reflexivity|]); clear;
      open_page s; destruct localVideoRef0; run_page; reflexivity.
  - destruct (conns s !! call) as [k|] eqn:Hk.
    + destruct (reachable_conns_inv role s Hreach) as [H1 _].
      destruct (H1 call k Hk) as (_ & _ & [[_ Hls] | (_ & _ & Hls)]).
      * apply Hnone. unfold exec, step, emit, bind, gets. cbn [fst snd].
        rewrite Hk, Hls. reflexivity.
      * destruct e as [rs| |].
        -- apply Hnone. rewrite (stream_received role s call k rs Hk Hls).
           reflexivity.
        -- apply Hnone. rewrite (close_received role s call k Hk Hls).
           reflexivity.
        -- destruct Hls as [Hls|Hls].
           ++ eapply Hone; [reflexivity|].
              rewrite (error_on_answered_call role s call k Hk Hls).
              reflexivity.
           ++ eapply Hone; [reflexivity|].
              rewrite (error_on_placed_call role s call k Hk Hls).
              reflexivity.
    + apply Hnone. unfold exec, step, emit, bind, gets. cbn [fst snd].
      rewrite Hk. reflexivity.
  - apply Hnone. clear. open_page s. reflexivity.
  - assert (Hstep : exec (step role ClickCall) s
                    = if callButton_enabled s then exec (makeCall role) s
                      else s).
    { unfold exec, step, click, when, bind, gets. cbn [fst snd].
      destruct (callButton_enabled s); reflexivity. }
    rewrite Hstep. destruct (callButton_enabled s).
    + destruct (makeCall_cases role s) as [Hno | (st & Hp & Hr & Hst)].
      * eapply Hone; [reflexivity|]. rewrite (makeCall_refuses role s Hno).
        reflexivity.
      * eapply Hone; [reflexivity|].
        rewrite (makeCall_places_offer role s st Hp Hr Hst). reflexivity.
    + exists []. rewrite app_nil_r. split; [reflexivity|].
      split; [cbn; lia|reflexivity].
  - assert (Hstep : exec (step role ClickEnd) s
                    = if endButton_enabled s then exec endCall s else s).
    { unfold exec, step, click, when, bind, gets. cbn [fst snd].
      destruct (endButton_enabled s); reflexivity. }
    rewrite Hstep.
    destruct (endButton_enabled s);
      [|exists []; rewrite app_nil_r; split; [reflexivity|];
        split; [cbn; lia|reflexivity]].
    destruct (currentCall s) as [c|] eqn:Hc.
    + eapply Hone; [reflexivity|]. rewrite (endCall_with_call s c Hc).
      reflexivity.
    + unfold exec. rewrite (endCall_without_call s Hc).
      exists []. rewrite app_nil_r. split; [reflexivity|].
      split; [cbn; lia|reflexivity].
  - apply Hnone.
    assert (Hstep : exec (step role ClickVideo) s
                    = if toggleButton_enabled s then exec toggleVideo s
                      else s).
    { unfold exec, step, click, when, bind, gets. cbn [fst snd].
      destruct (toggleButton_enabled s); reflexivity. }
    rewrite Hstep. destruct (toggleButton_enabled s); [|reflexivity].
    pose proof (toggleVideo_beside s) as Hb. unfold beside_tracks in Hb.
    injection Hb as ?. assumption.
  - apply Hnone.
    assert (Hstep : exec (step role ClickAudio) s
                    = if toggleButton_enabled s then exec toggleAudio s
                      else s).
    { unfold exec, step, click, when, bind, gets. cbn [fst snd].
      destruct (toggleButton_enabled s); reflexivity. }
    rewrite Hstep. destruct (toggleButton_enabled s); [|reflexivity].
    pose proof (toggleAudio_beside s) as Hb. unfold beside_tracks in Hb.
    injection Hb as ?. assumption.
Qed.

Lemma notices_per_event_witness :
  let evs := [Mount "0.k3j5x9q2wab"; PeerOpen "PT-K3J5X9Q2";
              Media (Granted 0 camera); PeerCall "DR-XYZ98765";
              Signal 0 (Stream 1)] in
  let s := play Patient evs in
  reachable Patient s
  /\ exists ts, toasts (exec (step Patient (Signal 0 Close)) s) = toasts s ++ ts
                /\ length ts <= 1
                /\ (silent (Signal 0 Close) = true -> ts = []).
Proof.
  intros evs s.
  assert (Hr : reachable Patient s).
  { apply (run_reachable Patient evs initialPage);
      [apply reachable_initial | vm_compute; reflexivity]. }
  split; [exact Hr|].
  exact (notices_per_event Patient s (Signal 0 Close) Hr).
Defined.

(** ** Identities, once more *)

(** X16.  For every radix-36 rendering of the random number, both
    generators return their role prefix, a hyphen and the same suffix of
    upper-case base-36 characters, as many as the rendering has fractional
    digits but at most eight; with at least eight fractional digits the
    suffix has exactly eight characters and the identity eleven. *)
Theorem generated_id_format (rnd : string) :
  JS.is_rendering36 rnd = true ->
  exists suffix : string,
    generatePatientId rnd = ("PT-" ++ suffix)%string
    /\ generateDoctorId rnd = ("DR-" ++ suffix)%string
    /\ String.length suffix = Nat.min 8 (String.length rnd - 2)
    /\ JS.string_forallb JS.is_upper36 suffix = true
    /\ (10 <= String.length rnd ->
        String.length suffix = 8
        /\ String.length (generatePatientId rnd) = 11
        /\ String.length (generateDoctorId rnd) = 11).
Proof.
  intros H. exists (JS.toUpperCase (JS.substr rnd 2 8)).
  destruct (IdFacts.suffix_shape rnd H) as [Hlen Hchars].
  split; [reflexivity|]. split; [reflexivity|].
  split; [exact Hlen|]. split; [exact Hchars|].
  intros Hten. unfold generatePatientId, generateDoctorId.
  assert (H8 : String.length (JS.toUpperCase (JS.substr rnd 2 8)) = 8)
    by (rewrite Hlen; lia).
  split; [exact H8|].
  change (String.length ("PT-" ++ JS.toUpperCase (JS.substr rnd 2 8))%string)
    with (3 + String.length (JS.toUpperCase (JS.substr rnd 2 8))).
  change (String.length ("DR-" ++ JS.toUpperCase (JS.substr rnd 2 8))%string)
    with (3 + String.length (JS.toUpperCase (JS.substr rnd 2 8))).
  rewrite H8. split; reflexivity.
Qed.

Lemma generated_id_format_witness :
  let rnd := "0.k3j5x9q2wab" in
  JS.is_rendering36 rnd = true
  /\ generatePatientId rnd = "PT-K3J5X9Q2"
  /\ exists suffix : string,
       generatePatientId rnd = ("PT-" ++ suffix)%string
       /\ generateDoctorId rnd = ("DR-" ++ suffix)%string
       /\ String.length suffix = Nat.min 8 (String.length rnd - 2)
       /\ JS.string_forallb JS.is_upper36 suffix = true
       /\ (10 <= String.length rnd ->
           String.length suffix = 8
           /\ String.length (generatePatientId rnd) = 11
           /\ String.length (generateDoctorId rnd) = 11).
Proof.
  intros rnd.
  assert (H : JS.is_rendering36 rnd = true) by (vm_compute; reflexivity).
  split; [exact H|]. split; [vm_compute; reflexivity|].
  exact (generated_id_format rnd H).
Defined.

(** ** Releasing the camera *)

Lemma stop_track_twice (ts : list MediaStreamTrack) :
  stop_track <$> (stop_track <$> ts) = stop_track <$> ts.
Proof.
  rewrite <- list_fmap_compose. apply list_fmap_ext. intros i t _. reflexivity.
Qed.

Lemma cleanup_camera_page (s : Page) (st : StreamRef)
    (ts : list MediaStreamTrack) :
  localStreamRef s = Some st ->
  streams s !! st = Some ts ->
  exec cleanup_camera s
  = mkPage (hasCameraPermission s) (isVideoMuted s) (isAudioMuted s) (peer s)
           (peerId s) (remotePeerIdInput s) (currentCall s) (isConnected s)
           (isCallActive s) (hasRemoteStream s) (localVideoRef s)
           (remoteVideoRef s) (localStreamRef s)
           (<[st := stop_track <$> ts]> (streams s)) (conns s) (toasts s).
Proof.
  intros Hst Hts. open_page s. subst.
  unfold exec, cleanup_camera, bind, gets. page_cells. rewrite Hts.
  reflexivity.
Qed.

(** X17.  The clean-up of the camera effect stops every track of the local
    stream, whatever the state of the call: afterwards all its tracks are
    ended, with their kinds and [enabled] flags as before; the mute cells,
    the session, the connections (a call in progress is not closed by this
    clean-up) and the toasts are untouched; running it again changes
    nothing.  Without a local stream it does nothing. *)
Theorem cleanup_stops_every_track (s : Page) :
  (localStreamRef s = None -> exec cleanup_camera s = s)
  /\ (forall st ts,
        localStreamRef s = Some st ->
        streams s !! st = Some ts ->
        let s' := exec cleanup_camera s in
        exists ts',
          streams s' !! st = Some ts'
          /\ Forall (fun t => readyState t = ended) ts'
          /\ kind <$> ts' = kind <$> ts
          /\ enabled <$> ts' = enabled <$> ts
          /\ isVideoMuted s' = isVideoMuted s
          /\ isAudioMuted s' = isAudioMuted s
          /\ beside_tracks s' = beside_tracks s
          /\ exec cleanup_camera s' = s').
Proof.
  split.
  - intros Hnone. unfold exec, cleanup_camera, bind, gets. cbn [fst snd].
    rewrite Hnone. reflexivity.
  - intros st ts Hst Hts s'.
    assert (Hs' : s' = exec cleanup_camera s) by reflexivity.
    rewrite (cleanup_camera_page s st ts Hst Hts) in Hs'.
    exists (stop_track <$> ts).
    assert (Hts' : streams s' !! st = Some (stop_track <$> ts))
      by (rewrite Hs'; apply lookup_insert_eq).
    assert (Hst' : localStreamRef s' = Some st) by (rewrite Hs'; exact Hst).
    split; [exact Hts'|]. split; [|split; [|split]].
    + apply Forall_fmap. apply Forall_true. intros t. reflexivity.
    + rewrite <- list_fmap_compose. reflexivity.
    + rewrite <- list_fmap_compose. reflexivity.
    + split; [rewrite Hs'; reflexivity|]. split; [rewrite Hs'; reflexivity|].
      split; [rewrite Hs'; reflexivity|].
      rewrite (cleanup_camera_page s' st _ Hst' Hts').
      rewrite stop_track_twice. rewrite Hs'. page_cells.
      rewrite insert_insert_eq. reflexivity.
Qed.

Lemma cleanup_stops_every_track_witness :
  let s := play Patient [Mount "0.k3j5x9q2wab"; PeerOpen "PT-K3J5X9Q2";
                         Media (Granted 0 camera); ClickVideo;
                         PeerCall "DR-XYZ98765"] in
  let ts := [mkTrack video false live; mkTrack audio true live] in
  let idle_page := play Patient [Mount "0.k3j5x9q2wab"; Media Denied] in
  (localStreamRef idle_page = None /\ exec cleanup_camera idle_page = idle_page)
  /\ localStreamRef s = Some 0
  /\ streams s !! 0 = Some ts
  /\ (let s' := exec cleanup_camera s in
      exists ts',
        streams s' !! 0 = Some ts'
        /\ Forall (fun t => readyState t = ended) ts'
        /\ kind <$> ts' = kind <$> ts
        /\ enabled <$> ts' = enabled <$> ts
        /\ isVideoMuted s' = isVideoMuted s
        /\ isAudioMuted s' = isAudioMuted s
        /\ beside_tracks s' = beside_tracks s
        /\ exec cleanup_camera s' = s').
Proof.
  intros s ts idle_page.
  assert (Hn : localStreamRef idle_page = None) by (vm_compute; reflexivity).
  assert (Hst : localStreamRef s = Some 0) by (vm_compute; reflexivity).
  assert (Hts : streams s !! 0 = Some ts) by (vm_compute; reflexivity).
  split; [split; [exact Hn|]|].
  - exact (proj1 (cleanup_stops_every_track idle_page) Hn).
  - split; [exact Hst|]. split; [exact Hts|].
    exact (proj2 (cleanup_stops_every_track s) 0 ts Hst Hts).
Defined.

(** ** The summary form *)

Lemma min1_nil (name value : string) : min1 name value = [] <-> value <> "".
Proof.
  unfold min1. destruct value as [|a value]; cbn; split; congruence.
Qed.

Lemma min1_issue (name value : string) (issue : string * string) :
  issue ∈ min1 name value -> issue = (name, "Required") /\ value = "".
Proof.
  unfold min1. destruct value as [|a value]; cbn.
  - intros ->%list_elem_of_singleton. auto.
  - intros H. apply not_elem_of_nil in H. contradiction.
Qed.

Lemma form_validation_aux (v : FormValues) :
  (formSchema v = [] -> all_filled v) /\ (all_filled v -> formSchema v = []).
Proof.
  unfold formSchema, all_filled. rewrite !app_nil, !min1_nil. tauto.
Qed.

(** X18.  The schema accepts the form exactly when each of the five fields
    holds at least one character; every issue it raises names a field that
    is empty and carries the message "Required"; and a form with an empty
    field is never submitted: the summary cells and the page stay as they
    are. *)
Theorem form_validation {Output : Type} (v : FormValues)
    (c : Consultation Output) :
  (formSchema v = [] <-> all_filled v)
  /\ (forall name message, (name, message) ∈ formSchema v ->
        message = "Required"
        /\ ((name = "medicalHistory" /\ medicalHistory v = "")
            \/ (name = "vitals" /\ vitals v = "")
            \/ (name = "labResults" /\ labResults v = "")
            \/ (name = "imagingResults" /\ imagingResults v = "")
            \/ (name = "preferredLanguage" /\ preferredLanguage v = "")))
  /\ (~ all_filled v -> handleSubmit v c = c).
Proof.
  assert (Hiff : formSchema v = [] <-> all_filled v)
    by (split; apply (form_validation_aux v)).
  split; [exact Hiff|]. split.
  - intros name message Hin. unfold formSchema in Hin.
    rewrite !elem_of_app in Hin.
    destruct Hin as [H|[H|[H|[H|H]]]]; apply min1_issue in H as [E Hv];
      injection E as -> ->; split; auto 10.
  - intros Hno. unfold handleSubmit. destruct (isLoading c); [reflexivity|].
    destruct (formSchema v) as [|issue issues] eqn:E; [|reflexivity].
    exfalso. apply Hno, Hiff. reflexivity.
Qed.

Lemma form_validation_witness :
  let v := mkForm "Hypertension" "" "HbA1c: 7.2%" "Chest X-ray: Clear"
                  "English" in
  let c := mkConsultation (play Patient [Mount "0.k3j5x9q2wab"])
                          (Some "an earlier summary") false in
  ~ all_filled v
  /\ formSchema v = [("vitals", "Required")]
  /\ handleSubmit v c = c.
Proof.
  intros v c.
  assert (Hno : ~ all_filled v).
  { intros (_ & H & _). apply H. reflexivity. }
  split; [exact Hno|]. split; [vm_compute; reflexivity|].
  exact (proj2 (proj2 (form_validation v c)) Hno).
Defined.

(** X19.  A summary request from start to end.  Submitting a valid form
    while no request is pending clears the summary shown and sets
    [isLoading], and until the flow settles every further submission is
    ignored.  When the flow settles, [isLoading] is false again whichever
    way it ended, exactly one notice is shown, and the summary is the
    flow's result on success and stays empty on failure: a summary shown
    before a failed request is gone.  The cells of the call session, the
    camera and the registration are never touched. *)
Theorem summary_request_round {Output : Type} (c : Consultation Output)
    (v : FormValues) (o : FlowOutcome Output) :
  isLoading c = false ->
  all_filled v ->
  let c1 := handleSubmit v c in
  let c2 := onSubmit_settle o c1 in
  (isLoading c1 = true /\ summary c1 = None /\ page c1 = page c
   /\ forall v', handleSubmit v' c1 = c1)
  /\ isLoading c2 = false
  /\ summary c2 = match o with
                  | Resolved result => Some result
                  | Rejected => None
                  end
  /\ toasts (page c2)
     = toasts (page c) ++ [match o with
                           | Resolved _ => summary_generated
                           | Rejected => summary_failed
                           end]
  /\ beside_toasts (page c2) = beside_toasts (page c).
Proof.
  intros Hload Hfill c1 c2.
  assert (Hv : formSchema v = []).
  { destruct (form_validation_aux v) as [_ Hiff]. apply Hiff. exact Hfill. }
  assert (H1 : c1 = onSubmit_begin c).
  { subst c1. unfold handleSubmit. rewrite Hload, Hv. reflexivity. }
  split.
  - rewrite H1. repeat split; reflexivity.
  - subst c2. rewrite H1. destruct c as [pg sm ld]. destruct pg.
    destruct o; repeat split; reflexivity.
Qed.

Lemma summary_request_round_witness :
  let c := mkConsultation
             (play Patient [Mount "0.k3j5x9q2wab"; PeerOpen "PT-K3J5X9Q2";
                            Media (Granted 0 camera); PeerCall "DR-XYZ98765"])
             (Some "an earlier summary") false in
  let v := mkForm "Hypertension" "BP 140/90 mmHg" "HbA1c: 7.2%"
                  "Chest X-ray: Clear" "English" in
  let o := @Rejected string in
  isLoading c = false
  /\ all_filled v
  /\ (let c1 := handleSubmit v c in
      let c2 := onSubmit_settle o c1 in
      (isLoading c1 = true /\ summary c1 = None /\ page c1 = page c
       /\ forall v', handleSubmit v' c1 = c1)
      /\ isLoading c2 = false
      /\ summary c2 = match o with
                      | Resolved result => Some result
                      | Rejected => None
                      end
      /\ toasts (page c2)
         = toasts (page c) ++ [match o with
                               | Resolved _ => summary_generated
                               | Rejected => summary_failed
                               end]
      /\ beside_toasts (page c2) = beside_toasts (page c)).
Proof.
  intros c v o.
  assert (Hl : isLoading c = false) by reflexivity.
  assert (Hf : all_filled v) by (repeat split; discriminate).
  split; [exact Hl|]. split; [exact Hf|].
  exact (summary_request_round c v o Hl Hf).
Defined.

(** ** The camera cells are written by the capture outcome only *)

Lemma run_closure_camera (role : Role) (c : Closure) (e : CallEvent)
    (s : Page) :
  media (exec (run_closure role c e) s) = media s
  /\ localVideoRef (exec (run_closure role c e) s) = localVideoRef s.
Proof.
  open_page s. destruct c, e, remoteVideoRef0; run_page; auto.
Qed.

(** X20.  Nothing but the outcome of the capture request writes the camera
    cells: every other event leaves the permission, the local stream
    reference and the preview element as they are, so a refused camera is
    never retried and a granted stream is never released by a call ending,
    failing or being replaced.  And nothing but the two toggles and the
    capture outcome writes a track or a mute cell. *)
Theorem camera_written_by_capture_only (role : Role) (s : Page) (ev : Event) :
  (forall o, ev <> Media o) ->
  let s' := exec (step role ev) s in
  hasCameraPermission s' = hasCameraPermission s
  /\ localStreamRef s' = localStreamRef s
  /\ localVideoRef s' = localVideoRef s
  /\ (ev <> ClickVideo -> ev <> ClickAudio ->
      streams s' = streams s
      /\ isVideoMuted s' = isVideoMuted s
      /\ isAudioMuted s' = isAudioMuted s).
Proof.
  intros Hev s'.
  assert (Hall : forall s1, media s1 = media s ->
            localVideoRef s1 = localVideoRef s ->
            hasCameraPermission s1 = hasCameraPermission s
            /\ localStreamRef s1 = localStreamRef s
            /\ localVideoRef s1 = localVideoRef s
            /\ (ev <> ClickVideo -> ev <> ClickAudio ->
                streams s1 = streams s
                /\ isVideoMuted s1 = isVideoMuted s
                /\ isAudioMuted s1 = isAudioMuted s)).
  { intros s1 Hm Hv. unfold media in Hm. injection Hm as ?.
    repeat split; assumption. }
  assert (Htoggle : forall s1, beside_tracks s1 = beside_tracks s ->
            (ev = ClickVideo \/ ev = ClickAudio) ->
            hasCameraPermission s1 = hasCameraPermission s
            /\ localStreamRef s1 = localStreamRef s
            /\ localVideoRef s1 = localVideoRef s
            /\ (ev <> ClickVideo -> ev <> ClickAudio ->
                streams s1 = streams s
                /\ isVideoMuted s1 = isVideoMuted s
                /\ isAudioMuted s1 = isAudioMuted s)).
  { intros s1 Hb Hor. unfold beside_tracks in Hb. injection Hb as ?.
    repeat split; try assumption; destruct Hor; contradiction. }
  subst s'.
  destruct ev as [rnd|id|from|message|o|call e|v| | | | ].
  - apply Hall; clear; open_page s; reflexivity.
  - apply Hall; clear; open_page s; reflexivity.
  - destruct (localStreamRef s) as [st|] eqn:Hst.
    + rewrite (on_call_answers role s from st Hst).
      apply Hall; reflexivity.
    + rewrite (on_call_rejects role s from Hst).
      apply Hall; [unfold media; cbn; rewrite Hst|]; reflexivity.
  - apply Hall; clear; open_page s; reflexivity.
  - exfalso. exact (Hev o eq_refl).
  - unfold exec, step, emit, bind, gets. cbn [fst snd].
    destruct (conns s !! call) as [k|]; [|apply Hall; reflexivity].
    assert (Hp : media (exec (run_listeners role (conn_listeners k) e) s)
                 = media s
                 /\ localVideoRef
                      (exec (run_listeners role (conn_listeners k) e) s)
                    = localVideoRef s).
    { apply (run_listeners_preserves role
               (fun s1 => media s1 = media s
                          /\ localVideoRef s1 = localVideoRef s)); [|auto].
      intros c s0 [H1 H2].
      destruct (run_closure_camera role c e s0) as [E1 E2].
      rewrite E1, E2. auto. }
    destruct Hp as [Hm Hv]. apply Hall; assumption.
  - apply Hall; clear; open_page s; reflexivity.
  - unfold exec, step, click, when, bind, gets. cbn [fst snd].
    destruct (callButton_enabled s); [|apply Hall; reflexivity].
    fold (exec (makeCall role) s).
    destruct (makeCall_cases role s) as [Hc | (st & Hp & Hr & Hst)].
    + rewrite (makeCall_refuses role s Hc). apply Hall; reflexivity.
    + rewrite (makeCall_places_offer role s st Hp Hr Hst).
      apply Hall; reflexivity.
  - unfold exec, step, click, when, bind, gets. cbn [fst snd].
    destruct (endButton_enabled s); [|apply Hall; reflexivity].
    fold (exec endCall s).
    destruct (currentCall s) as [call|] eqn:Hc.
    + rewrite (endCall_with_call s call Hc). apply Hall; reflexivity.
    + unfold exec. rewrite (endCall_without_call s Hc).
      apply Hall; reflexivity.
  - unfold exec, step, click, when, bind, gets. cbn [fst snd].
    destruct (toggleButton_enabled s); [|apply Hall; reflexivity].
    apply Htoggle; [apply toggleVideo_beside|auto].
  - unfold exec, step, click, when, bind, gets. cbn [fst snd].
    destruct (toggleButton_enabled s); [|apply Hall; reflexivity].
    apply Htoggle; [apply toggleAudio_beside|auto].
Qed.

Lemma camera_written_by_capture_only_witness :
  let s := play Patient [Mount "0.k3j5x9q2wab"; PeerOpen "PT-K3J5X9Q2";
                         Media (Granted 0 camera); PeerCall "DR-XYZ98765";
                         Signal 0 (Stream 1)] in
  let ev := ClickEnd in
  (forall o, ev <> Media o)
  /\ (let s' := exec (step Patient ev) s in
      hasCameraPermission s' = hasCameraPermission s
      /\ localStreamRef s' = localStreamRef s
      /\ localVideoRef s' = localVideoRef s
      /\ (ev <> ClickVideo -> ev <> ClickAudio ->
          streams s' = streams s
          /\ isVideoMuted s' = isVideoMuted s
          /\ isAudioMuted s' = isAudioMuted s)).
Proof.
  intros s ev.
  assert (Hev : forall o, ev <> Media o) by (intros o; discriminate).
  split; [exact Hev|].
  exact (camera_written_by_capture_only Patient s ev Hev).
Defined.
